(** * Typed Spring Boot module-injection API

    A shallow embedding of [generators/spring-boot/support/typed-api.ts]
    (class [SpringBootModuleInjector]) and the properties of its builder
    and of [applyTo].

    Layout:
    - JavaScript values and ordinary objects (own-key order included);
    - [Array.prototype.sort] with a comparator, as a stable sort;
    - the three configuration records and the value-level builder;
    - the target generator, the effect monad and [applyTo];
    - a reference-level model of the builder's arrays (module [Obj]);
    - lemmas and the theorems about the builder;
    - further properties: the helper tables [SpringBoot] and
      [SpringProperties], what a run depends on, when it completes and what
      it leaves alone. *)

From stdpp Require Import strings list gmap sorting.

#[local] Set Warnings "-register-all".
Open Scope Z_scope.

(** ** JavaScript values *)

(** The dynamically typed payloads ([any], [Record<string, any>]).  Numbers
    are integers here; an object is the list of its own enumerable
    string-keyed properties in creation order (arrays are objects whose keys
    are indices). *)
Inductive JsValue : Type :=
  | JUndefined
  | JNull
  | JBool (b : bool)
  | JNumber (n : Z)
  | JString (s : string)
  | JObject (props : list (string * JsValue)).

Abbreviation JsObject := (list (string * JsValue)).

(** ToBoolean. *)
Definition truthy (v : JsValue) : bool :=
  match v with
  | JUndefined | JNull => false
  | JBool b => b
  | JNumber n => negb (n =? 0)
  | JString s => negb (String.eqb s "")
  | JObject _ => true
  end.

(** [o[k]] on an ordinary object: [None] stands for a missing property. *)
Fixpoint obj_get (k : string) (o : JsObject) : option JsValue :=
  match o with
  | [] => None
  | (k', v) :: o' => if String.eqb k k' then Some v else obj_get k o'
  end.

(** [o[k] = v] on an ordinary extensible object: an existing property keeps
    its place in the creation order, a new one is created last. *)
Fixpoint obj_set (k : string) (v : JsValue) (o : JsObject) : JsObject :=
  match o with
  | [] => [(k, v)]
  | (k', v') :: o' =>
      if String.eqb k k' then (k, v) :: o' else (k', v') :: obj_set k v o'
  end.

(** An object literal [{k1: v1, k2: v2, ...}], built property by property. *)
Definition obj_literal (kvs : list (string * JsValue)) : JsObject :=
  fold_left (fun o kv => obj_set kv.1 kv.2 o) kvs [].

(** ** Array indices among property keys *)

Definition digit_of_ascii (c : Ascii.ascii) : option N :=
  let n := Ascii.N_of_ascii c in
  if ((48 <=? n) && (n <=? 57))%N then Some (n - 48)%N else None.

Fixpoint digits_value (s : string) (acc : N) : option N :=
  match s with
  | EmptyString => Some acc
  | String c s' =>
      match digit_of_ascii c with
      | Some d => digits_value s' (10 * acc + d)%N
      | None => None
      end
  end.

(** A property key is an array index when it is the canonical decimal form
    of an integer in [0, 2^32 - 2]. *)
Definition array_index (s : string) : option N :=
  match s with
  | EmptyString => None
  | String c s' =>
      if (Ascii.N_of_ascii c =? 48)%N
      then (if String.eqb s' "" then Some 0%N else None)
      else match digits_value s 0 with
           | Some n => if (n <? 4294967295)%N then Some n else None
           | None => None
           end
  end.

(** ** [Array.prototype.sort] with a comparator *)

Section ArraySort.
Context {A : Type}.
Variable compareFn : A -> A -> Z.

(** [x] comes from the left of everything in [sorted]: it goes in front
    of the first element it does not compare greater than, so that equal
    elements keep their order. *)
Fixpoint sort_insert (x : A) (sorted : list A) : list A :=
  match sorted with
  | [] => [x]
  | y :: ys =>
      if compareFn x y <=? 0 then x :: y :: ys else y :: sort_insert x ys
  end.

(** The sort of ECMAScript 2019 and later is stable; with a consistent
    comparator its result is determined, whatever the algorithm
    ([Array_sort_unique] below). *)
Fixpoint Array_sort (l : list A) : list A :=
  match l with
  | [] => []
  | x :: xs => sort_insert x (Array_sort xs)
  end.
End ArraySort.

(** The comparator [(a, b) => key(a) - key(b)] and the order it sorts by. *)
Definition by_key {A} (key : A -> Z) (a b : A) : Z := key a - key b.

Definition key_le {A} (key : A -> Z) (a b : A) : Prop := key a <= key b.

(** [Object.entries(o)]: the array indices in ascending numeric order, then
    the other keys in creation order. *)
Definition index_of (kv : string * JsValue) : Z :=
  Z.of_N (default 0%N (array_index kv.1)).

Definition index_entries (o : JsObject) : list (string * JsValue) :=
  filter (fun kv => array_index kv.1 <> None) o.

Definition named_entries (o : JsObject) : list (string * JsValue) :=
  filter (fun kv => array_index kv.1 = None) o.

Definition Object_entries (o : JsObject) : list (string * JsValue) :=
  Array_sort (fun a b => index_of a - index_of b) (index_entries o)
  ++ named_entries o.

(** ** The configuration records *)

(** [SpringBootModuleConfig].  [priority] is an integer, as in the data
    model of the builder. *)
Record SpringBootModuleConfig : Type := {
  module : string;
  enabled : bool;
  config : option JsObject;
  priority : option Z
}.

(** [Omit<SpringBootModuleConfig, 'module'>], the second argument of
    [injectModule].  The type drops [module] from what it requires, not
    from what an argument may carry: an object that is not a literal, such
    as an entry of [getModules()], is accepted with its own [module] key,
    here [opt_module]. *)
Record ModuleOptions : Type := {
  opt_module : option string;
  opt_enabled : bool;
  opt_config : option JsObject;
  opt_priority : option Z
}.

Inductive PropertyType : Type :=
  | TString | TNumber | TBoolean | TArray | TObject.

Record SpringBootPropertyOverride : Type := {
  property : string;
  value : JsValue;
  type : option PropertyType;
  override : option bool;
  profiles : option JsObject
}.

(** [Omit<SpringBootPropertyOverride<T>, 'property' | 'value'>], the third
    argument of [overrideProperty].  An argument that is not a literal may
    carry [property] and [value] keys of its own, here [opt_property] and
    [opt_value] (the value of an own key may be [undefined]). *)
Record PropertyOptions : Type := {
  opt_property : option string;
  opt_value : option JsValue;
  opt_type : option PropertyType;
  opt_override : option bool;
  opt_profiles : option JsObject
}.

Inductive DependencyScope : Type :=
  | ScopeCompile | ScopeRuntime | ScopeTest | ScopeProvided.

Record Exclusion : Type := {
  excl_groupId : string;
  excl_artifactId : string
}.

Record SpringBootDependencyConfig : Type := {
  groupId : string;
  artifactId : string;
  version : option string;
  scope : option DependencyScope;
  optional : option bool;
  exclusions : option (list Exclusion)
}.

(** ** The builder, at the level of values *)

Record SpringBootModuleInjector : Type := {
  modules : list SpringBootModuleConfig;
  propertyOverrides : list SpringBootPropertyOverride;
  dependencies : list SpringBootDependencyConfig
}.

Definition createSpringBootInjector : SpringBootModuleInjector :=
  {| modules := []; propertyOverrides := []; dependencies := [] |}.

(** The default parameter [= { enabled: true }]. *)
Definition default_module_options : ModuleOptions :=
  {| opt_module := None; opt_enabled := true; opt_config := None;
     opt_priority := None |}.

(** The object literal [{ module, ...config }]: the keys of [config] are
    spread after [module], so a [module] key of [config] replaces it. *)
Definition module_request (m : string) (c : ModuleOptions)
  : SpringBootModuleConfig :=
  {| module := default m (opt_module c);
     enabled := opt_enabled c;
     config := opt_config c;
     priority := opt_priority c |}.

(** [injectModule(module, config = { enabled: true })]: an omitted argument
    is [None]. *)
Definition injectModule (m : string) (c : option ModuleOptions)
    (this : SpringBootModuleInjector) : SpringBootModuleInjector :=
  {| modules := modules this ++ [module_request m (default default_module_options c)];
     propertyOverrides := propertyOverrides this;
     dependencies := dependencies this |}.

Definition default_property_options : PropertyOptions :=
  {| opt_property := None; opt_value := None; opt_type := None;
     opt_override := None; opt_profiles := None |}.

(** The object literal [{ property, value, ...options }]: the keys of
    [options] are spread last, so its own [property] and [value] keys
    replace the first two arguments. *)
Definition property_override (p : string) (v : JsValue) (o : PropertyOptions)
  : SpringBootPropertyOverride :=
  {| property := default p (opt_property o);
     value := default v (opt_value o);
     type := opt_type o;
     override := opt_override o;
     profiles := opt_profiles o |}.

Definition overrideProperty (p : string) (v : JsValue)
    (o : option PropertyOptions)
    (this : SpringBootModuleInjector) : SpringBootModuleInjector :=
  {| modules := modules this;
     propertyOverrides :=
       propertyOverrides this
       ++ [property_override p v (default default_property_options o)];
     dependencies := dependencies this |}.

Definition addDependency (d : SpringBootDependencyConfig)
    (this : SpringBootModuleInjector) : SpringBootModuleInjector :=
  {| modules := modules this;
     propertyOverrides := propertyOverrides this;
     dependencies := dependencies this ++ [d] |}.

(** The accessors return [[...this.xs]]; at the level of values the copy is
    the sequence itself (module [Obj] below has the arrays as references). *)
Definition getModules (this : SpringBootModuleInjector) := modules this.
Definition getPropertyOverrides (this : SpringBootModuleInjector) :=
  propertyOverrides this.
Definition getDependencies (this : SpringBootModuleInjector) :=
  dependencies this.

(** ** The target generator and the effects of [applyTo] *)

(** What can be thrown while [applyTo] runs: the rejection of the awaited
    [composeWithJHipster] promise, or the [TypeError] of an assignment to a
    property of a primitive (class bodies are strict code). *)
Inductive JsError : Type :=
  | ExternalFailure (reason : JsValue)
  | TypeError (message : string).

Inductive Completion (A : Type) : Type :=
  | Normal (a : A)
  | Throw (e : JsError).
Arguments Normal {A} a.
Arguments Throw {A} e.

(** The calls and assignments [applyTo] performs on its argument, in
    program order. *)
Inductive Event : Type :=
  | ComposeCall (m : string) (generatorOptions : option JsObject)
  | ConfigWrite (key : string) (v : JsValue)
  | DependencyWrite (key : string) (v : JsValue).

(** Modelled from the spec: the generator passed to [applyTo] is typed
    [any]; its [jhipsterConfig] is "a mutable string-keyed mapping
    supporting direct key assignment" (an ordinary object here) and
    [composeWithJHipster] is the collaborator's, a parameter below.
    [internals] is whatever else the collaborator keeps. *)
Record Generator (G : Type) : Type := {
  jhipsterConfig : JsObject;
  internals : G
}.
Arguments jhipsterConfig {G} _.
Arguments internals {G} _.

Record World (G : Type) : Type := {
  target : Generator G;
  events : list Event
}.
Arguments target {G} _.
Arguments events {G} _.

Definition Eff (G A : Type) : Type := World G -> Completion A * World G.

#[global] Instance eff_ret {G} : MRet (Eff G) :=
  fun A a w => (Normal a, w).

(** A thrown error ends the computation; what was done stays done. *)
#[global] Instance eff_bind {G} : MBind (Eff G) :=
  fun A B f c w =>
    match c w with
    | (Normal a, w') => f a w'
    | (Throw e, w') => (Throw e, w')
    end.

Definition throw {G A} (e : JsError) : Eff G A := fun w => (Throw e, w).

Definition emit {G} (e : Event) : Eff G unit :=
  fun w => (Normal tt, {| target := target w; events := events w ++ [e] |}).

(** [for (const x of xs) body(x)]. *)
Fixpoint for_of {G A} (body : A -> Eff G unit) (xs : list A) : Eff G unit :=
  match xs with
  | [] => mret tt
  | x :: xs' => body x ;; for_of body xs'
  end.

(** [generator.jhipsterConfig[key]]. *)
Definition read_config {G} (key : string) : Eff G (option JsValue) :=
  fun w => (Normal (obj_get key (jhipsterConfig (target w))), w).

Definition store_config {G} (key : string) (v : JsValue) : Eff G unit :=
  fun w =>
    (Normal tt,
     {| target := {| jhipsterConfig := obj_set key v (jhipsterConfig (target w));
                     internals := internals (target w) |};
        events := events w |}).

(** [generator.jhipsterConfig[key] = v]. *)
Definition write_config {G} (key : string) (v : JsValue) : Eff G unit :=
  store_config key v ;; emit (ConfigWrite key v).

(** [generator.jhipsterConfig.springBootDependencies[key] = v].  The object
    in the slot is updated in place; a primitive there has no properties to
    create. *)
Definition write_dependency {G} (key : string) (v : JsValue) : Eff G unit :=
  slot ← read_config "springBootDependencies";
  match slot with
  | Some (JObject deps) =>
      store_config "springBootDependencies" (JObject (obj_set key v deps)) ;;
      emit (DependencyWrite key v)
  | None | Some JUndefined | Some JNull =>
      throw (TypeError "Cannot set properties of undefined")
  | Some _ => throw (TypeError "Cannot create property")
  end.

Definition is_truthy (slot : option JsValue) : bool :=
  match slot with
  | Some v => truthy v
  | None => false
  end.

(** [a.priority ?? 0]. *)
Definition priority_or_0 (a : SpringBootModuleConfig) : Z :=
  default 0 (priority a).

Definition by_priority (a b : SpringBootModuleConfig) : Z :=
  priority_or_0 a - priority_or_0 b.

Section ApplyTo.
Context {G : Type}.

(** [await generator.composeWithJHipster(m, { generatorOptions })]: the
    collaborator runs on the generator and completes or fails. *)
Variable composeWithJHipster :
  string -> option JsObject -> Generator G -> Completion unit * Generator G.

Definition await_composeWithJHipster (m : string)
    (generatorOptions : option JsObject) : Eff G unit :=
  fun w =>
    let '(r, g) := composeWithJHipster m generatorOptions (target w) in
    (r, {| target := g;
           events := events w ++ [ComposeCall m generatorOptions] |}).

Definition applyPropertyOverride (propOverride : SpringBootPropertyOverride)
  : Eff G unit :=
  write_config (property propOverride) (value propOverride) ;;
  match profiles propOverride with
  | Some ps =>
      for_of (fun '(profile, profileValue) =>
                write_config (property propOverride +:+ "@" +:+ profile)
                             profileValue)
             (Object_entries ps)
  | None => mret tt
  end.

Definition addDependencyToGenerator (dep : SpringBootDependencyConfig)
  : Eff G unit :=
  slot ← read_config "springBootDependencies";
  (if negb (is_truthy slot)
   then write_config "springBootDependencies" (JObject [])
   else mret tt) ;;
  let key := groupId dep +:+ ":" +:+ artifactId dep in
  write_dependency key (JString (default "BOM" (version dep))).

Definition applyTo (this : SpringBootModuleInjector) : Eff G unit :=
  let sortedModules := Array_sort by_priority (modules this) in
  for_of (fun moduleConfig =>
            if enabled moduleConfig
            then await_composeWithJHipster (module moduleConfig)
                                           (config moduleConfig)
            else mret tt)
         sortedModules ;;
  for_of applyPropertyOverride (propertyOverrides this) ;;
  for_of addDependencyToGenerator (dependencies this).
End ApplyTo.

(** A call of one of the builder's methods by some client. *)
Inductive BuilderCall : Type :=
  | CallInjectModule (m : string) (c : option ModuleOptions)
  | CallOverrideProperty (p : string) (v : JsValue) (o : option PropertyOptions)
  | CallAddDependency (d : SpringBootDependencyConfig)
  | CallGetModules
  | CallGetPropertyOverrides
  | CallGetDependencies.

Definition apply_call (this : SpringBootModuleInjector) (c : BuilderCall)
  : SpringBootModuleInjector :=
  match c with
  | CallInjectModule m c => injectModule m c this
  | CallOverrideProperty p v o => overrideProperty p v o this
  | CallAddDependency d => addDependency d this
  | CallGetModules | CallGetPropertyOverrides | CallGetDependencies => this
  end.

Definition apply_calls (cs : list BuilderCall) (this : SpringBootModuleInjector)
  : SpringBootModuleInjector :=
  fold_left apply_call cs this.

(** The request a client registers by [injectModule(id, c)], as the
    contract of the builder words it: the identifier, and the defaults
    [{enabled: true}] overwritten by the fields of an explicit [c]. *)
Definition registered_request (id : string) (c : option ModuleOptions)
  : SpringBootModuleConfig :=
  {| module := id;
     enabled := match c with Some c => opt_enabled c | None => true end;
     config := c ≫= opt_config;
     priority := c ≫= opt_priority |}.

(** The module requests a sequence of calls registers, as [injectModule]
    builds them. *)
Definition registered_modules (cs : list BuilderCall)
  : list SpringBootModuleConfig :=
  omap (fun c => match c with
                 | CallInjectModule id c =>
                     Some (module_request id (default default_module_options c))
                 | _ => None
                 end) cs.

(** ** The builder's arrays as references *)

(** The class keeps three arrays and mutates them in place; an accessor
    returns a new array.  Here arrays and the objects they hold live in a
    heap and are named by locations, so that sharing between the builder and
    its callers can be stated: an array holds references to its elements,
    and [[...arr]] copies the references, not the elements. *)
Module Obj.

Definition loc : Type := positive.

(** An element of one of the three arrays, by its fields. *)
Inductive Entry : Type :=
  | EModule (m : SpringBootModuleConfig)
  | EOverride (o : SpringBootPropertyOverride)
  | EDependency (d : SpringBootDependencyConfig).

Record Heap : Type := {
  arrays : gmap loc (list loc);
  objects : gmap loc Entry
}.

Definition empty : Heap := {| arrays := ∅; objects := ∅ |}.

(** An instance of the class: its three private fields. *)
Record Injector : Type := {
  modules : loc;
  propertyOverrides : loc;
  dependencies : loc
}.

(** A new array holding the references [rs]. *)
Definition alloc (rs : list loc) (h : Heap) : loc * Heap :=
  let l := fresh (dom (arrays h)) in
  (l, {| arrays := <[l := rs]> (arrays h); objects := objects h |}).

(** A new object: the value of an object literal, or the object a caller
    hands over. *)
Definition alloc_object (x : Entry) (h : Heap) : loc * Heap :=
  let r := fresh (dom (objects h)) in
  (r, {| arrays := arrays h; objects := <[r := x]> (objects h) |}).

(** [arr.push(x)], where [x] is a new object. *)
Definition push (l : loc) (x : Entry) (h : Heap) : Heap :=
  let '(r, h1) := alloc_object x h in
  {| arrays := alter (fun rs => rs ++ [r]) l (arrays h1);
     objects := objects h1 |}.

(** The references an array holds. *)
Definition elements (l : loc) (h : Heap) : list loc :=
  default [] (arrays h !! l).

(** [[...arr]]: a new array with the references of [arr]. *)
Definition spread (l : loc) (h : Heap) : loc * Heap :=
  alloc (elements l h) h.

(** The field initialisers run by [new SpringBootModuleInjector()]. *)
Definition new (h : Heap) : Injector * Heap :=
  let '(m, h1) := alloc [] h in
  let '(p, h2) := alloc [] h1 in
  let '(d, h3) := alloc [] h2 in
  ({| modules := m; propertyOverrides := p; dependencies := d |}, h3).

Definition injectModule (m : string) (c : option ModuleOptions)
    (this : Injector) (h : Heap) : Heap :=
  push (modules this)
       (EModule (module_request m (default default_module_options c))) h.

Definition overrideProperty (p : string) (v : JsValue)
    (o : option PropertyOptions) (this : Injector) (h : Heap) : Heap :=
  push (propertyOverrides this)
       (EOverride (property_override p v (default default_property_options o)))
       h.

(** [this.dependencies.push(config)]: the array holds the object of the
    caller, which enters the heap here. *)
Definition addDependency (d : SpringBootDependencyConfig)
    (this : Injector) (h : Heap) : Heap :=
  push (dependencies this) (EDependency d) h.

Definition getModules (this : Injector) (h : Heap) : loc * Heap :=
  spread (modules this) h.

Definition getPropertyOverrides (this : Injector) (h : Heap) : loc * Heap :=
  spread (propertyOverrides this) h.

Definition getDependencies (this : Injector) (h : Heap) : loc * Heap :=
  spread (dependencies this) h.

Definition run_call (this : Injector) (h : Heap) (c : BuilderCall) : Heap :=
  match c with
  | CallInjectModule m c => injectModule m c this h
  | CallOverrideProperty p v o => overrideProperty p v o this h
  | CallAddDependency d => addDependency d this h
  | CallGetModules => (getModules this h).2
  | CallGetPropertyOverrides => (getPropertyOverrides this h).2
  | CallGetDependencies => (getDependencies this h).2
  end.

Definition run_calls (this : Injector) (cs : list BuilderCall) (h : Heap)
  : Heap :=
  fold_left (run_call this) cs h.

(** Any in-place change a client makes to an array it holds ([push],
    [pop], [splice], [sort], [reverse], an indexed assignment, ...): the
    array holds other references afterwards. *)
Definition mutate (l : loc) (f : list loc -> list loc) (h : Heap) : Heap :=
  {| arrays := alter f l (arrays h); objects := objects h |}.

(** A change of the fields of the object [r]. *)
Definition update_object (r : loc) (f : Entry -> Entry) (h : Heap) : Heap :=
  {| arrays := arrays h; objects := alter f r (objects h) |}.

(** [arr[i].field = v]: a change of the element at index [i] of the array
    [l].  Without such an element the assignment throws and nothing
    changes. *)
Definition update_element (l : loc) (i : nat) (f : Entry -> Entry) (h : Heap)
  : Heap :=
  match elements l h !! i with
  | Some r => update_object r f h
  | None => h
  end.

(** [m.enabled = false]. *)
Definition set_enabled (b : bool) (e : Entry) : Entry :=
  match e with
  | EModule m =>
      EModule {| module := module m; enabled := b;
                 config := config m; priority := priority m |}
  | _ => e
  end.

(** The objects behind a list of references. *)
Definition deref (h : Heap) (rs : list loc) : list Entry :=
  omap (fun r => objects h !! r) rs.

(** What an array holds: its elements, as they are now. *)
Definition contents (l : loc) (h : Heap) : list Entry :=
  deref h (elements l h).

(** The builder's state: the contents of its three arrays. *)
Definition state (this : Injector) (h : Heap)
  : list Entry * list Entry * list Entry :=
  (contents (modules this) h,
   contents (propertyOverrides this) h,
   contents (dependencies this) h).

(** The references [rs] name objects of the heap. *)
Definition allocated (h : Heap) (rs : list loc) : Prop :=
  Forall (fun r => is_Some (objects h !! r)) rs.

(** [h'] has the objects of [h], as they are in [h]. *)
Definition keeps_objects (h h' : Heap) : Prop :=
  forall r x, objects h !! r = Some x -> objects h' !! r = Some x.

(** The instance is in the heap: its arrays exist, are three, and hold
    references to objects of the heap. *)
Definition wf (this : Injector) (h : Heap) : Prop :=
  is_Some (arrays h !! modules this)
  /\ is_Some (arrays h !! propertyOverrides this)
  /\ is_Some (arrays h !! dependencies this)
  /\ modules this <> propertyOverrides this
  /\ modules this <> dependencies this
  /\ propertyOverrides this <> dependencies this
  /\ allocated h (elements (modules this) h)
  /\ allocated h (elements (propertyOverrides this) h)
  /\ allocated h (elements (dependencies this) h).

(** What a client holding the builder and the array [r] may do next: call
    a method of the builder, create an object, or change [r] in place. *)
Inductive Step : Type :=
  | StepCall (c : BuilderCall)
  | StepNew (x : Entry)
  | StepMutate (f : list loc -> list loc).

Definition run_step (this : Injector) (r : loc) (h : Heap) (s : Step) : Heap :=
  match s with
  | StepCall c => run_call this h c
  | StepNew x => (alloc_object x h).2
  | StepMutate f => mutate r f h
  end.

Definition run_steps (this : Injector) (r : loc) (ss : list Step) (h : Heap)
  : Heap :=
  fold_left (run_step this r) ss h.

Definition calls_of (ss : list Step) : list BuilderCall :=
  omap (fun s => match s with StepCall c => Some c | _ => None end) ss.

Definition mutations_of (ss : list Step) : list (list loc -> list loc) :=
  omap (fun s => match s with StepMutate f => Some f | _ => None end) ss.

(** What a call does to the contents of the builder's arrays. *)
Definition state_after_call (s : list Entry * list Entry * list Entry)
    (c : BuilderCall) : list Entry * list Entry * list Entry :=
  match c with
  | CallInjectModule m o =>
      (s.1.1 ++ [EModule (module_request m (default default_module_options o))],
       s.1.2, s.2)
  | CallOverrideProperty p v o =>
      (s.1.1,
       s.1.2 ++ [EOverride (property_override p v
                              (default default_property_options o))],
       s.2)
  | CallAddDependency d => (s.1.1, s.1.2, s.2 ++ [EDependency d])
  | CallGetModules | CallGetPropertyOverrides | CallGetDependencies => s
  end.

(** [r], obtained in [h1] from the array [l] of the builder in [h], is a
    shallow copy of [l]: a new array with the references of [l] in their
    order, so with the same element objects.  The calls of the builder's
    methods made afterwards do not change what [r] holds; the builder's
    arrays change with the builder's methods only, and the references [r]
    holds with the client's changes of [r] only; a change of an element
    through [r] is a change of the element of [l]. *)
Definition shallow_copy (this : Injector) (l : loc) (h : Heap)
    (r : loc) (h1 : Heap) : Prop :=
  arrays h !! r = None
  /\ elements r h1 = elements l h
  /\ contents r h1 = contents l h
  /\ state this h1 = state this h
  /\ (forall cs, contents r (run_calls this cs h1) = contents l h)
  /\ (forall ss,
       state this (run_steps this r ss h1)
       = fold_left state_after_call (calls_of ss) (state this h1)
       /\ elements r (run_steps this r ss h1)
          = fold_left (fun rs f => f rs) (mutations_of ss) (elements r h1))
  /\ forall i f,
       contents l (update_element r i f h1)
       = contents r (update_element r i f h1).

(** The value-level builder an instance stands for. *)
Definition decode (s : list Entry * list Entry * list Entry)
  : SpringBootModuleInjector :=
  Build_SpringBootModuleInjector
    (omap (fun e => match e with EModule m => Some m | _ => None end) s.1.1)
    (omap (fun e => match e with EOverride o => Some o | _ => None end) s.1.2)
    (omap (fun e => match e with EDependency d => Some d | _ => None end) s.2).

Definition view (this : Injector) (h : Heap) : SpringBootModuleInjector :=
  decode (state this h).

End Obj.

(** ** Reading a run of [applyTo] *)

(** A run against a generator, with an empty record of events. *)
Definition run {G A} (c : Eff G A) (g : Generator G) : Completion A * World G :=
  c {| target := g; events := [] |}.

(** The call made for a module request. *)
Definition call_event (m : SpringBootModuleConfig) : Event :=
  ComposeCall (module m) (config m).

Definition write_event (kv : string * JsValue) : Event :=
  ConfigWrite kv.1 kv.2.

Definition is_compose_call (e : Event) : bool :=
  match e with ComposeCall _ _ => true | _ => false end.

Definition is_dependency_write (e : Event) : bool :=
  match e with DependencyWrite _ _ => true | _ => false end.

(** The requests [applyTo] goes through, in the order of the loop, and those
    among them it composes. *)
Definition sorted_modules (this : SpringBootModuleInjector)
  : list SpringBootModuleConfig :=
  Array_sort by_priority (modules this).

Definition enabled_modules (this : SpringBootModuleInjector)
  : list SpringBootModuleConfig :=
  filter (fun m => enabled m = true) (sorted_modules this).

(** The generator after the collaborator has completed the calls for [ms]
    one after the other, if it completes them all. *)
Fixpoint composed {G}
    (compose : string -> option JsObject -> Generator G
               -> Completion unit * Generator G)
    (ms : list SpringBootModuleConfig) (g : Generator G)
  : option (Generator G) :=
  match ms with
  | [] => Some g
  | m :: ms' =>
      match compose (module m) (config m) g with
      | (Normal _, g') => composed compose ms' g'
      | (Throw _, _) => None
      end
  end.

(** The key of a profile-specific value. *)
Definition profile_key (p profile : string) : string :=
  p +:+ "@" +:+ profile.

(** The assignments one property override stands for: the base value, then
    the profile-specific values as [Object.entries] lists them. *)
Definition override_writes (o : SpringBootPropertyOverride)
  : list (string * JsValue) :=
  (property o, value o)
  :: match profiles o with
     | Some ps => (fun kv => (profile_key (property o) kv.1, kv.2))
                    <$> Object_entries ps
     | None => []
     end.

(** The same, with the profile-specific values in the order in which the
    profile map was built. *)
Definition override_writes_in_insertion_order (o : SpringBootPropertyOverride)
  : list (string * JsValue) :=
  (property o, value o)
  :: match profiles o with
     | Some ps => (fun kv => (profile_key (property o) kv.1, kv.2)) <$> ps
     | None => []
     end.

(** A sequence of assignments carried out on an object. *)
Definition apply_writes (ws : list (string * JsValue)) (o : JsObject)
  : JsObject :=
  fold_left (fun o kv => obj_set kv.1 kv.2 o) ws o.

Definition with_config {G} (g : Generator G) (c : JsObject) : Generator G :=
  {| jhipsterConfig := c; internals := internals g |}.

(** The entry of the dependency map a declaration stands for. *)
Definition dependency_key (d : SpringBootDependencyConfig) : string :=
  groupId d +:+ ":" +:+ artifactId d.

Definition dependency_value (d : SpringBootDependencyConfig) : JsValue :=
  JString (default "BOM" (version d)).

Definition dependency_write (d : SpringBootDependencyConfig)
  : string * JsValue :=
  (dependency_key d, dependency_value d).

Definition dependency_event (d : SpringBootDependencyConfig) : Event :=
  DependencyWrite (dependency_key d) (dependency_value d).

(** The dependency map of a configuration: the object under
    [springBootDependencies], if there is one. *)
Definition dependency_map (c : JsObject) : option JsObject :=
  match obj_get "springBootDependencies" c with
  | Some (JObject deps) => Some deps
  | _ => None
  end.

(** The slot can take dependencies: it is empty or falsy (a new map will
    be put there) or holds an object. *)
Definition slot_usable (c : JsObject) : bool :=
  match obj_get "springBootDependencies" c with
  | Some (JObject _) => true
  | slot => negb (is_truthy slot)
  end.

(** The map the dependency phase starts from. *)
Definition initial_dependency_map (c : JsObject) : JsObject :=
  default [] (dependency_map c).

(** The body of the first loop of [applyTo]. *)
Definition compose_step {G}
    (compose : string -> option JsObject -> Generator G
               -> Completion unit * Generator G)
    (moduleConfig : SpringBootModuleConfig) : Eff G unit :=
  if enabled moduleConfig
  then await_composeWithJHipster compose (module moduleConfig)
                                 (config moduleConfig)
  else mret tt.

(** The event of the assignment [jhipsterConfig.springBootDependencies = {}],
    when the slot is found empty or falsy. *)
Definition slot_init_events (c : JsObject) : list Event :=
  if is_truthy (obj_get "springBootDependencies" c)
  then []
  else [ConfigWrite "springBootDependencies" (JObject [])].

(** A world after a sequence of assignments to [jhipsterConfig]. *)
Definition perform_writes {G} (ws : list (string * JsValue)) (w : World G)
  : World G :=
  {| target := with_config (target w)
                           (apply_writes ws (jhipsterConfig (target w)));
     events := events w ++ (write_event <$> ws) |}.

(** A world after the dependency map has been set up if need be and has
    taken the entries [ws]. *)
Definition perform_dependency_writes {G} (ws : list (string * JsValue))
    (w : World G) : World G :=
  let c := jhipsterConfig (target w) in
  {| target :=
       with_config (target w)
         (obj_set "springBootDependencies"
                  (JObject (apply_writes ws (initial_dependency_map c))) c);
     events :=
       events w ++ slot_init_events c
       ++ ((fun kv => DependencyWrite kv.1 kv.2) <$> ws) |}.

(** What the last two loops of [applyTo] come to, from the world the first
    loop leaves. *)
Definition writes_outcome {G} (this : SpringBootModuleInjector) (w1 : World G)
  : Completion unit * World G :=
  let w2 := perform_writes (flat_map override_writes (propertyOverrides this)) w1 in
  match dependencies this with
  | [] => (Normal tt, w2)
  | _ :: _ =>
      if slot_usable (jhipsterConfig (target w2))
      then (Normal tt,
            perform_dependency_writes
              (dependency_write <$> dependencies this) w2)
      else (Throw (TypeError "Cannot create property"), w2)
  end.

(** The events of the third loop of [applyTo], run on the configuration [c]. *)
Definition dependency_events (this : SpringBootModuleInjector) (c : JsObject)
  : list Event :=
  match dependencies this with
  | [] => []
  | _ :: _ =>
      if slot_usable c
      then slot_init_events c ++ (dependency_event <$> dependencies this)
      else []
  end.

(** The assignments of all the property overrides, in program order. *)
Definition property_writes (this : SpringBootModuleInjector)
  : list (string * JsValue) :=
  flat_map override_writes (propertyOverrides this).

(** Two property overrides are applied alike: they agree on the fields
    [applyPropertyOverride] reads. *)
Definition same_override_effect (o1 o2 : SpringBootPropertyOverride) : Prop :=
  property o1 = property o2 /\ value o1 = value o2 /\ profiles o1 = profiles o2.

(** Two declarations are applied alike: they agree on the fields
    [addDependencyToGenerator] reads. *)
Definition same_dependency_effect (d1 d2 : SpringBootDependencyConfig) : Prop :=
  groupId d1 = groupId d2 /\ artifactId d1 = artifactId d2
  /\ version d1 = version d2.

(** ** Sample collaborators and registrations *)

Definition empty_generator : Generator unit :=
  {| jhipsterConfig := []; internals := tt |}.

(** A collaborator that completes every composition. *)
Definition always_completes (m : string) (o : option JsObject)
    (g : Generator unit) : Completion unit * Generator unit :=
  (Normal tt, g).

(** A collaborator that counts the compositions it completes in
    [jhipsterConfig.composed] and fails on the module [bad]. *)
Definition fails_on (bad : string) (m : string) (o : option JsObject)
    (g : Generator unit) : Completion unit * Generator unit :=
  if String.eqb m bad
  then (Throw (ExternalFailure (JString "no such generator")), g)
  else (Normal tt,
        with_config g
          (obj_set "composed"
             (JNumber (match obj_get "composed" (jhipsterConfig g) with
                       | Some (JNumber n) => n + 1
                       | _ => 1
                       end))
             (jhipsterConfig g))).

Definition with_priority (p : Z) : option ModuleOptions :=
  Some {| opt_module := None; opt_enabled := true; opt_config := None;
          opt_priority := Some p |}.

Definition disabled : option ModuleOptions :=
  Some {| opt_module := None; opt_enabled := false; opt_config := None;
          opt_priority := None |}.

(** A(2), B(1), C(1), registered in this order. *)
Definition injector_ABC : SpringBootModuleInjector :=
  injectModule "C" (with_priority 1)
    (injectModule "B" (with_priority 1)
       (injectModule "A" (with_priority 2) createSpringBootInjector)).

(** X without priority between Y(-1) and Z(1), registered X, Z, Y. *)
Definition injector_XZY : SpringBootModuleInjector :=
  injectModule "Y" (with_priority (-1))
    (injectModule "Z" (with_priority 1)
       (injectModule "X" None createSpringBootInjector)).

(** [logging.level.root] with values for the profiles dev and prod. *)
Definition logging_options : option PropertyOptions :=
  Some {| opt_property := None; opt_value := None;
          opt_type := Some TString;
          opt_override := None;
          opt_profiles :=
            Some (obj_literal [("dev", JString "DEBUG");
                               ("prod", JString "WARN")]) |}.

Definition lib_dependency (v : option string) : SpringBootDependencyConfig :=
  {| groupId := "com.example";
     artifactId := "lib";
     version := v;
     scope := None;
     optional := None;
     exclusions := None |}.

(** The three modules, the logging override and [com.example:lib] declared
    twice. *)
Definition injector_full : SpringBootModuleInjector :=
  addDependency (lib_dependency (Some "2.0.0"))
    (addDependency (lib_dependency (Some "1.0.0"))
       (overrideProperty "logging.level.root" (JString "INFO") logging_options
          injector_ABC)).

(** JWT enabled by default, OAuth2 registered disabled. *)
Definition injector_jwt_oauth2 : SpringBootModuleInjector :=
  injectModule "jhipster:spring-boot:oauth2" disabled
    (injectModule "jhipster:spring-boot:jwt" None createSpringBootInjector).

(** A new instance in an empty heap, after one [injectModule]. *)
Definition sample_instance : Obj.Injector := (Obj.new Obj.empty).1.

Definition sample_heap : Obj.Heap :=
  Obj.run_calls sample_instance [CallInjectModule "A" None]
    (Obj.new Obj.empty).2.

(** The array [getModules] returns for the sample instance, and the heap
    after the client has set [enabled] of its first element to [false]. *)
Definition sample_returned : Obj.loc :=
  (Obj.getModules sample_instance sample_heap).1.

Definition sample_heap_returned : Obj.Heap :=
  (Obj.getModules sample_instance sample_heap).2.

Definition sample_heap_changed : Obj.Heap :=
  Obj.update_element sample_returned 0 (Obj.set_enabled false)
    sample_heap_returned.

(** A port with values for the profiles "10" and "2", given in this order. *)
Definition port_options : option PropertyOptions :=
  Some {| opt_property := None; opt_value := None;
          opt_type := Some TNumber;
          opt_override := None;
          opt_profiles :=
            Some (obj_literal [("10", JNumber 8010); ("2", JNumber 8002)]) |}.

Definition injector_port : SpringBootModuleInjector :=
  overrideProperty "server.port" (JNumber 8080) port_options
    createSpringBootInjector.

(** A property override on the path [springBootDependencies] with a string
    for value, and one dependency. *)
Definition injector_slot_clash : SpringBootModuleInjector :=
  addDependency (lib_dependency (Some "1.0.0"))
    (overrideProperty "springBootDependencies" (JString "managed") None
       createSpringBootInjector).

(** [injector_full] with other declared types, override flags, scopes,
    optional flags and exclusions. *)
Definition injector_full_annotated : SpringBootModuleInjector :=
  addDependency
    {| groupId := "com.example"; artifactId := "lib"; version := Some "2.0.0";
       scope := Some ScopeTest; optional := Some true;
       exclusions := Some [{| excl_groupId := "org.springframework.boot";
                              excl_artifactId := "spring-boot-starter-logging" |}] |}
    (addDependency
       {| groupId := "com.example"; artifactId := "lib";
          version := Some "1.0.0";
          scope := Some ScopeRuntime; optional := Some false;
          exclusions := Some [] |}
       (overrideProperty "logging.level.root" (JString "INFO")
          (Some {| opt_property := None; opt_value := None;
                   opt_type := Some TNumber;
                   opt_override := Some false;
                   opt_profiles :=
                     Some (obj_literal [("dev", JString "DEBUG");
                                        ("prod", JString "WARN")]) |})
          injector_ABC)).

(** [server.port] overridden twice, and one dependency. *)
Definition injector_two_ports : SpringBootModuleInjector :=
  addDependency (lib_dependency None)
    (overrideProperty "server.port" (JNumber 9090) None
       (overrideProperty "server.port" (JNumber 8080) None
          createSpringBootInjector)).

(** [logging@dev] overridden twice, then [logging] with a value for the
    profile dev. *)
Definition injector_profile_clash : SpringBootModuleInjector :=
  overrideProperty "logging" (JString "INFO")
    (Some {| opt_property := None; opt_value := None;
             opt_type := None; opt_override := None;
             opt_profiles := Some (obj_literal [("dev", JString "DEBUG")]) |})
    (overrideProperty "logging@dev" (JString "WARN") None
       (overrideProperty "logging@dev" (JString "ERROR") None
          createSpringBootInjector)).

(** ** The rest of the builder and the helper tables *)

(** The property overrides and the dependencies a sequence of calls
    registers, as [overrideProperty] and [addDependency] build them. *)
Definition registered_overrides (cs : list BuilderCall)
  : list SpringBootPropertyOverride :=
  omap (fun c => match c with
                 | CallOverrideProperty p v o =>
                     Some (property_override p v
                             (default default_property_options o))
                 | _ => None
                 end) cs.

Definition registered_dependencies (cs : list BuilderCall)
  : list SpringBootDependencyConfig :=
  omap (fun c => match c with
                 | CallAddDependency d => Some d
                 | _ => None
                 end) cs.

(** The override itself passed for options, as in
    [overrideProperty(o.property, o.value, o)]. *)
Definition options_of (o : SpringBootPropertyOverride) : PropertyOptions :=
  {| opt_property := Some (property o); opt_value := Some (value o);
     opt_type := type o; opt_override := override o;
     opt_profiles := profiles o |}.

(** [SPRING_BOOT_MODULES], [SPRING_DATA_MODULES] and [SPRING_MODULES]. *)
Module SPRING_BOOT_MODULES.
Definition JWT : string := "jhipster:spring-boot:jwt".
Definition OAUTH2 : string := "jhipster:spring-boot:oauth2".
Definition SESSION : string := "jhipster:spring-boot:session".
Definition CUCUMBER : string := "jhipster:spring-boot:cucumber".
Definition FEIGN_CLIENT : string := "jhipster:spring-boot:feign-client".
Definition WEBSOCKET : string := "jhipster:spring-boot:websocket".
Definition GATEWAY : string := "jhipster:spring-cloud:gateway".
End SPRING_BOOT_MODULES.

Module SPRING_DATA_MODULES.
Definition RELATIONAL : string := "jhipster:spring-data:relational".
Definition CASSANDRA : string := "jhipster:spring-data:cassandra".
Definition COUCHBASE : string := "jhipster:spring-data:couchbase".
Definition MONGODB : string := "jhipster:spring-data:mongodb".
Definition NEO4J : string := "jhipster:spring-data:neo4j".
Definition ELASTICSEARCH : string := "jhipster:spring-data:elasticsearch".
End SPRING_DATA_MODULES.

Module SPRING_MODULES.
Definition CACHE : string := "spring-cache".
Definition CLOUD_STREAM : string := "spring-cloud-stream".
End SPRING_MODULES.

(** The object [SpringBoot]: each function makes a new builder and
    registers one module on it; [config] is passed on as it comes. *)
Module SpringBoot.
Definition jwt (config : option ModuleOptions) : SpringBootModuleInjector :=
  injectModule SPRING_BOOT_MODULES.JWT config createSpringBootInjector.
Definition oauth2 (config : option ModuleOptions) : SpringBootModuleInjector :=
  injectModule SPRING_BOOT_MODULES.OAUTH2 config createSpringBootInjector.
Definition session (config : option ModuleOptions) : SpringBootModuleInjector :=
  injectModule SPRING_BOOT_MODULES.SESSION config createSpringBootInjector.
Definition feignClient (config : option ModuleOptions)
  : SpringBootModuleInjector :=
  injectModule SPRING_BOOT_MODULES.FEIGN_CLIENT config createSpringBootInjector.
Definition websocket (config : option ModuleOptions)
  : SpringBootModuleInjector :=
  injectModule SPRING_BOOT_MODULES.WEBSOCKET config createSpringBootInjector.
Definition relational (config : option ModuleOptions)
  : SpringBootModuleInjector :=
  injectModule SPRING_DATA_MODULES.RELATIONAL config createSpringBootInjector.
Definition mongodb (config : option ModuleOptions) : SpringBootModuleInjector :=
  injectModule SPRING_DATA_MODULES.MONGODB config createSpringBootInjector.
Definition cache (config : option ModuleOptions) : SpringBootModuleInjector :=
  injectModule SPRING_MODULES.CACHE config createSpringBootInjector.
Definition cloudStream (config : option ModuleOptions)
  : SpringBootModuleInjector :=
  injectModule SPRING_MODULES.CLOUD_STREAM config createSpringBootInjector.
Definition injector : SpringBootModuleInjector := createSpringBootInjector.
End SpringBoot.

(** The functions of [SpringBoot] that register a module, with the
    identifier each one registers. *)
Definition module_helpers
  : list ((option ModuleOptions -> SpringBootModuleInjector) * string) :=
  [(SpringBoot.jwt, SPRING_BOOT_MODULES.JWT);
   (SpringBoot.oauth2, SPRING_BOOT_MODULES.OAUTH2);
   (SpringBoot.session, SPRING_BOOT_MODULES.SESSION);
   (SpringBoot.feignClient, SPRING_BOOT_MODULES.FEIGN_CLIENT);
   (SpringBoot.websocket, SPRING_BOOT_MODULES.WEBSOCKET);
   (SpringBoot.relational, SPRING_DATA_MODULES.RELATIONAL);
   (SpringBoot.mongodb, SPRING_DATA_MODULES.MONGODB);
   (SpringBoot.cache, SPRING_MODULES.CACHE);
   (SpringBoot.cloudStream, SPRING_MODULES.CLOUD_STREAM)].

(** The object [SpringProperties]. *)
Module SpringProperties.
Definition serverPort (port : Z) : SpringBootPropertyOverride :=
  {| property := "serverPort"; value := JNumber port; type := Some TNumber;
     override := None; profiles := None |}.
Definition databaseUrl (url : string) : SpringBootPropertyOverride :=
  {| property := "spring.datasource.url"; value := JString url;
     type := Some TString; override := None; profiles := None |}.
Definition loggingLevel (logger level : string) : SpringBootPropertyOverride :=
  {| property := "logging.level." +:+ logger; value := JString level;
     type := Some TString; override := None; profiles := None |}.
Definition cacheType (t : string) : SpringBootPropertyOverride :=
  {| property := "spring.cache.type"; value := JString t;
     type := Some TString; override := None; profiles := None |}.
Definition custom (p : string) (v : JsValue) (t : option PropertyType)
  : SpringBootPropertyOverride :=
  {| property := p; value := v; type := t; override := None; profiles := None |}.
End SpringProperties.

(** An override made by one of the four functions of [SpringProperties]
    with a fixed path. *)
Inductive typed_override : SpringBootPropertyOverride -> Prop :=
  | typed_serverPort port : typed_override (SpringProperties.serverPort port)
  | typed_databaseUrl url : typed_override (SpringProperties.databaseUrl url)
  | typed_loggingLevel logger level :
      typed_override (SpringProperties.loggingLevel logger level)
  | typed_cacheType t : typed_override (SpringProperties.cacheType t).

(** [overrideProperty(o.property, o.value, o)] for each override of a list,
    in order. *)
Definition register_overrides (os : list SpringBootPropertyOverride)
    (this : SpringBootModuleInjector) : SpringBootModuleInjector :=
  fold_left (fun b o => overrideProperty (property o) (value o)
                                         (Some (options_of o)) b) os this.

(** The builder without its disabled requests. *)
Definition without_disabled (this : SpringBootModuleInjector)
  : SpringBootModuleInjector :=
  {| modules := filter (fun m => enabled m = true) (modules this);
     propertyOverrides := propertyOverrides this;
     dependencies := dependencies this |}.

(** The builder with every priority [p] (0 when missing) replaced by
    [f p]. *)
Definition with_priorities (f : Z -> Z) (this : SpringBootModuleInjector)
  : SpringBootModuleInjector :=
  {| modules :=
       (fun m => {| module := module m; enabled := enabled m;
                    config := config m;
                    priority := Some (f (priority_or_0 m)) |})
       <$> modules this;
     propertyOverrides := propertyOverrides this;
     dependencies := dependencies this |}.

(** The configuration the last two loops of [applyTo] leave, when they
    complete, from the configuration [c]. *)
Definition config_after_writes (this : SpringBootModuleInjector) (c : JsObject)
  : JsObject :=
  let c2 := apply_writes (property_writes this) c in
  match dependencies this with
  | [] => c2
  | _ :: _ =>
      obj_set "springBootDependencies"
        (JObject (apply_writes (dependency_write <$> dependencies this)
                               (initial_dependency_map c2)))
        c2
  end.

(** Every key the assignments [ws] name holds the value of the last of
    them. *)
Definition settled (ws : list (string * JsValue)) (o : JsObject) : Prop :=
  forall ws1 k v ws2,
    ws = ws1 ++ (k, v) :: ws2 ->
    Forall (fun kv => kv.1 <> k) ws2 ->
    obj_get k o = Some v.

(** An entry of another builder's [getModules()], registered for OAuth2,
    passed for configuration. *)
Definition oauth2_entry : option ModuleOptions :=
  Some {| opt_module := Some "jhipster:spring-boot:oauth2";
          opt_enabled := true; opt_config := None; opt_priority := None |}.

(** * Properties *)

(** ** Objects *)

Lemma obj_get_set_eq k v o : obj_get k (obj_set k v o) = Some v.
Proof.
  induction o as [|[k' v'] o IH]; simpl.
  - by rewrite String.eqb_refl.
  - destruct (String.eqb k k') eqn:E; simpl; rewrite ?String.eqb_refl, ?E; done.
Qed.

Lemma obj_get_set_ne k k' v o :
  k <> k' -> obj_get k' (obj_set k v o) = obj_get k' o.
Proof.
  intros Hne. induction o as [|[k2 v2] o IH]; simpl.
  - destruct (String.eqb k' k) eqn:E; [|done].
    apply String.eqb_eq in E. congruence.
  - destruct (String.eqb k k2) eqn:E; simpl.
    + apply String.eqb_eq in E. subst k2.
      destruct (String.eqb k' k) eqn:E'; [|done].
      apply String.eqb_eq in E'. congruence.
    + by rewrite IH.
Qed.

Lemma apply_writes_app ws1 ws2 o :
  apply_writes (ws1 ++ ws2) o = apply_writes ws2 (apply_writes ws1 o).
Proof. unfold apply_writes. by rewrite fold_left_app. Qed.

(** A key no assignment names keeps its value. *)
Lemma apply_writes_untouched k ws o :
  Forall (fun kv => kv.1 <> k) ws ->
  obj_get k (apply_writes ws o) = obj_get k o.
Proof.
  revert o. induction ws as [|[k' v'] ws IH]; intros o Hall; [done|].
  inversion Hall as [|? ? Hk Hws]; subst. simpl in *.
  rewrite IH by done. by apply obj_get_set_ne.
Qed.

(** The last assignment to a key decides its value. *)
Lemma apply_writes_last k v ws1 ws2 o :
  Forall (fun kv => kv.1 <> k) ws2 ->
  obj_get k (apply_writes (ws1 ++ (k, v) :: ws2) o) = Some v.
Proof.
  intros Hall. rewrite apply_writes_app. simpl.
  change (fold_left _ ws2 ?o') with (apply_writes ws2 o').
  rewrite apply_writes_untouched by done. apply obj_get_set_eq.
Qed.

(** ** Sorting by a numeric key *)

Section SortByKey.
Context {A : Type} (key : A -> Z).

Lemma sort_insert_perm x l : sort_insert (by_key key) x l ≡ₚ x :: l.
Proof.
  induction l as [|y ys IH]; simpl; [done|].
  destruct ((by_key key) x y <=? 0); [done|].
  rewrite IH. apply Permutation_swap.
Qed.

Lemma Array_sort_perm l : Array_sort (by_key key) l ≡ₚ l.
Proof.
  induction l as [|x xs IH]; simpl; [done|].
  by rewrite sort_insert_perm, IH.
Qed.

Lemma sort_insert_sorted x l :
  StronglySorted (key_le key) l -> StronglySorted (key_le key) (sort_insert (by_key key) x l).
Proof.
  induction 1 as [|y ys Hys IH Hy]; simpl.
  - repeat constructor.
  - destruct ((by_key key) x y <=? 0) eqn:E.
    + apply Z.leb_le in E. unfold by_key in E.
      constructor; [by constructor|].
      constructor; [unfold key_le; lia|].
      eapply Forall_impl; [exact Hy|]. unfold key_le. intros; simpl in *; lia.
    + apply Z.leb_gt in E. unfold by_key in E.
      constructor; [done|].
      rewrite sort_insert_perm. constructor; [unfold key_le; lia|done].
Qed.

Lemma Array_sort_sorted l : StronglySorted (key_le key) (Array_sort (by_key key) l).
Proof.
  induction l as [|x xs IH]; simpl; [constructor|].
  by apply sort_insert_sorted.
Qed.

(** Stability: the elements of any one key are in their original order. *)
Lemma sort_insert_stable p x l :
  filter (fun a => key a = p) (sort_insert (by_key key) x l)
  = filter (fun a => key a = p) (x :: l).
Proof.
  induction l as [|y ys IH]; simpl; [done|].
  destruct ((by_key key) x y <=? 0) eqn:E; [done|].
  apply Z.leb_gt in E. unfold by_key in E.
  rewrite (filter_cons _ y), IH, !filter_cons.
  repeat case_decide; try done; lia.
Qed.

Lemma Array_sort_stable p l :
  filter (fun a => key a = p) (Array_sort (by_key key) l)
  = filter (fun a => key a = p) l.
Proof.
  induction l as [|x xs IH]; simpl; [done|].
  rewrite sort_insert_stable, !filter_cons, IH. done.
Qed.

(** An ascending list is determined by its elements key by key: there is
    one stable sort, whichever algorithm computes it. *)
Lemma stable_sorted_unique l1 l2 :
  StronglySorted (key_le key) l1 -> StronglySorted (key_le key) l2 ->
  (forall p, filter (fun a => key a = p) l1 = filter (fun a => key a = p) l2) ->
  l1 = l2.
Proof.
  intros Hs1. revert l2.
  induction Hs1 as [|x l1 Hs1 IH Hx]; intros l2 Hs2 Hf.
  - destruct l2 as [|y l2]; [done|].
    specialize (Hf (key y)). rewrite filter_cons in Hf.
    case_decide; [discriminate|done].
  - destruct Hs2 as [|y l2 Hs2 Hy].
    { specialize (Hf (key x)). rewrite filter_cons in Hf.
      case_decide; [discriminate|done]. }
    assert (Hxy : key y <= key x).
    { assert (Hin : x ∈ filter (fun a => key a = key x) (y :: l2)).
      { rewrite <- Hf, filter_cons. case_decide; [left|done]. }
      apply list_elem_of_filter in Hin as [_ Hin].
      apply elem_of_cons in Hin as [->|Hin]; [lia|].
      rewrite Forall_forall in Hy. by apply Hy. }
    assert (Hyx : key x <= key y).
    { assert (Hin : y ∈ filter (fun a => key a = key y) (x :: l1)).
      { rewrite Hf, filter_cons. case_decide; [left|done]. }
      apply list_elem_of_filter in Hin as [_ Hin].
      apply elem_of_cons in Hin as [->|Hin]; [lia|].
      rewrite Forall_forall in Hx. by apply Hx. }
    assert (Hk : key x = key y) by lia.
    pose proof (Hf (key x)) as Hh. rewrite !filter_cons in Hh.
    repeat case_decide; try congruence.
    injection Hh as -> Htl.
    f_equal. apply IH; [done|].
    intros p. specialize (Hf p). rewrite !filter_cons in Hf.
    case_decide; [by injection Hf|done].
Qed.

Lemma Array_sort_unique l l' :
  StronglySorted (key_le key) l' ->
  (forall p, filter (fun a => key a = p) l' = filter (fun a => key a = p) l) ->
  l' = Array_sort (by_key key) l.
Proof.
  intros Hs Hf. apply stable_sorted_unique; [done|apply Array_sort_sorted|].
  intros p. by rewrite Array_sort_stable.
Qed.

End SortByKey.

(** ** The three loops of [applyTo] *)

Section Loops.
Context {G : Type}.
Variable compose :
  string -> option JsObject -> Generator G -> Completion unit * Generator G.

Lemma applyTo_loops this :
  applyTo compose this
  = (for_of (compose_step compose) (sorted_modules this) ;;
     for_of applyPropertyOverride (propertyOverrides this) ;;
     for_of addDependencyToGenerator (dependencies this)).
Proof. reflexivity. Qed.

Lemma bind_normal {A B} (c : Eff G A) (f : A -> Eff G B) w a w' :
  c w = (Normal a, w') -> (c ≫= f) w = f a w'.
Proof. intros H. unfold mbind, eff_bind. by rewrite H. Qed.

Lemma bind_throw {A B} (c : Eff G A) (f : A -> Eff G B) w e w' :
  c w = (Throw e, w') -> (c ≫= f) w = (Throw e, w').
Proof. intros H. unfold mbind, eff_bind. by rewrite H. Qed.

Lemma for_of_cons {A} (body : A -> Eff G unit) x xs :
  for_of body (x :: xs) = (body x ;; for_of body xs).
Proof. reflexivity. Qed.

(** *** The modules *)

Lemma await_completes m o g g' evs :
  compose m o g = (Normal tt, g') ->
  await_composeWithJHipster compose m o {| target := g; events := evs |}
  = (Normal tt, {| target := g'; events := evs ++ [ComposeCall m o] |}).
Proof. intros H. unfold await_composeWithJHipster. cbn. by rewrite H. Qed.

Lemma await_fails m o g g' e evs :
  compose m o g = (Throw e, g') ->
  await_composeWithJHipster compose m o {| target := g; events := evs |}
  = (Throw e, {| target := g'; events := evs ++ [ComposeCall m o] |}).
Proof. intros H. unfold await_composeWithJHipster. cbn. by rewrite H. Qed.

Lemma compose_step_enabled m :
  enabled m = true ->
  compose_step compose m
  = await_composeWithJHipster compose (module m) (config m).
Proof. unfold compose_step. by intros ->. Qed.

Lemma compose_step_disabled m :
  enabled m = false -> compose_step compose m = mret tt.
Proof. unfold compose_step. by intros ->. Qed.

Lemma module_loop_completes ms g g' evs :
  composed compose (filter (fun m => enabled m = true) ms) g = Some g' ->
  for_of (compose_step compose) ms {| target := g; events := evs |}
  = (Normal tt,
     {| target := g';
        events := evs ++ (call_event <$> filter (fun m => enabled m = true) ms) |}).
Proof.
  revert g evs. induction ms as [|m ms IH]; intros g evs H; simpl.
  - injection H as ->. by rewrite app_nil_r.
  - rewrite filter_cons in H.
    destruct (enabled m) eqn:E.
    + rewrite decide_True in H by done. simpl in H.
      rewrite compose_step_enabled by done.
      destruct (compose (module m) (config m) g) as [[[]|e] g1] eqn:Hc; [|done].
      erewrite bind_normal by (by apply await_completes).
      rewrite (IH _ _ H), filter_cons, decide_True by done.
      simpl. by rewrite <- app_assoc.
    + rewrite decide_False in H by congruence.
      rewrite compose_step_disabled by done.
      erewrite bind_normal by reflexivity.
      rewrite (IH _ _ H), filter_cons, decide_False by congruence. done.
Qed.

Lemma module_loop_fails ms pre m post g g1 g2 e evs :
  filter (fun m => enabled m = true) ms = pre ++ m :: post ->
  composed compose pre g = Some g1 ->
  compose (module m) (config m) g1 = (Throw e, g2) ->
  for_of (compose_step compose) ms {| target := g; events := evs |}
  = (Throw e,
     {| target := g2; events := evs ++ (call_event <$> pre ++ [m]) |}).
Proof.
  revert pre g evs. induction ms as [|a ms IH]; intros pre g evs Hf Hpre Hm.
  - by destruct pre.
  - rewrite filter_cons in Hf. rewrite for_of_cons.
    destruct (enabled a) eqn:E.
    + rewrite decide_True in Hf by done.
      rewrite compose_step_enabled by done.
      destruct pre as [|b pre]; simpl in *.
      * injection Hf as -> Hf. injection Hpre as ->.
        erewrite bind_throw by (by apply await_fails).
        done.
      * injection Hf as -> Hf.
        destruct (compose (module b) (config b) g) as [[[]|e'] g'] eqn:Hc;
          [|done].
        erewrite bind_normal by (by apply await_completes).
        rewrite (IH _ _ _ Hf Hpre Hm). by rewrite <- app_assoc.
    + rewrite decide_False in Hf by congruence.
      rewrite compose_step_disabled by done.
      erewrite bind_normal by reflexivity. by apply IH.
Qed.

(** Whatever the collaborator does, the calls made are those of an initial
    part of the enabled requests, and of all of them when the loop
    completes; the loop makes no assignment of its own. *)
Lemma module_loop_calls ms w :
  exists called,
    called `prefix_of` filter (fun m => enabled m = true) ms
    /\ events (for_of (compose_step compose) ms w).2
       = events w ++ (call_event <$> called)
    /\ match (for_of (compose_step compose) ms w).1 with
       | Normal _ => called = filter (fun m => enabled m = true) ms
       | Throw _ => True
       end.
Proof.
  revert w. induction ms as [|m ms IH]; intros w.
  - exists []. simpl. by rewrite app_nil_r.
  - rewrite for_of_cons, filter_cons.
    destruct (enabled m) eqn:E.
    + rewrite decide_True by done.
      rewrite compose_step_enabled by done.
      unfold mbind, eff_bind, await_composeWithJHipster.
      destruct (compose (module m) (config m) (target w)) as [[[]|e] g1].
      * destruct (IH {| target := g1;
                        events := events w ++ [ComposeCall (module m) (config m)] |})
          as (called & Hp & He & Hn).
        exists (m :: called). split; [by apply prefix_cons|].
        split; [rewrite He; simpl; by rewrite <- app_assoc|].
        destruct (for_of _ ms _).1; [by f_equal|done].
      * exists [m]. split; [apply prefix_cons, prefix_nil|done].
    + rewrite decide_False by congruence.
      rewrite compose_step_disabled by done.
      unfold mbind, eff_bind, mret, eff_ret. apply IH.
Qed.

End Loops.

Section Writes.
Context {G : Type}.
Implicit Types w : World G.

(** *** The property overrides *)

Lemma perform_writes_nil w : perform_writes [] w = w.
Proof.
  destruct w as [[c i] evs]. unfold perform_writes, with_config. simpl.
  by rewrite app_nil_r.
Qed.

Lemma perform_writes_app ws1 ws2 w :
  perform_writes (ws1 ++ ws2) w = perform_writes ws2 (perform_writes ws1 w).
Proof.
  unfold perform_writes, with_config. simpl.
  by rewrite apply_writes_app, fmap_app, app_assoc.
Qed.

Lemma write_config_run k v w :
  write_config k v w = (Normal tt, perform_writes [(k, v)] w).
Proof. reflexivity. Qed.

(** A loop whose turns are runs of assignments is the run of them all. *)
Lemma for_of_writes {A} (body : A -> Eff G unit)
    (ws : A -> list (string * JsValue)) xs w :
  (forall x w', body x w' = (Normal tt, perform_writes (ws x) w')) ->
  for_of body xs w = (Normal tt, perform_writes (flat_map ws xs) w).
Proof.
  intros Hbody. revert w. induction xs as [|x xs IH]; intros w; simpl.
  - by rewrite perform_writes_nil.
  - unfold mbind, eff_bind. rewrite Hbody, IH. by rewrite perform_writes_app.
Qed.

Lemma flat_map_singleton {A B} (f : A -> B) (xs : list A) :
  flat_map (fun x => [f x]) xs = f <$> xs.
Proof. induction xs as [|x xs IH]; simpl; [done|by rewrite IH]. Qed.

Lemma applyPropertyOverride_run o w :
  applyPropertyOverride o w = (Normal tt, perform_writes (override_writes o) w).
Proof.
  unfold applyPropertyOverride, override_writes.
  erewrite bind_normal by apply write_config_run.
  destruct (profiles o) as [ps|]; [|done].
  rewrite (for_of_writes _ (fun kv => [(profile_key (property o) kv.1, kv.2)])).
  - by rewrite <- perform_writes_app, flat_map_singleton.
  - by intros [profile profileValue] w'.
Qed.

Lemma override_loop_run ovs w :
  for_of applyPropertyOverride ovs w
  = (Normal tt, perform_writes (flat_map override_writes ovs) w).
Proof. apply for_of_writes. intros; apply applyPropertyOverride_run. Qed.

(** *** The dependencies *)

Lemma obj_set_set k v1 v2 o : obj_set k v2 (obj_set k v1 o) = obj_set k v2 o.
Proof.
  induction o as [|[k' v'] o IH]; simpl.
  - by rewrite String.eqb_refl.
  - destruct (String.eqb k k') eqn:E; simpl;
      rewrite ?String.eqb_refl, ?E, ?IH; done.
Qed.

Lemma addDependencyToGenerator_run d w :
  slot_usable (jhipsterConfig (target w)) = true ->
  addDependencyToGenerator d w
  = (Normal tt, perform_dependency_writes [dependency_write d] w).
Proof.
  destruct w as [[c i] evs].
  unfold slot_usable, addDependencyToGenerator, perform_dependency_writes,
    initial_dependency_map, dependency_map, slot_init_events, write_dependency,
    write_config, store_config, read_config, emit, with_config, mbind, eff_bind,
    mret, eff_ret, dependency_write, dependency_key, dependency_value.
  simpl.
  destruct (obj_get "springBootDependencies" c) as [[| |b|n|s|deps]|] eqn:Hs;
    simpl; intros Hu;
    rewrite ?(proj1 (negb_true_iff _) Hu); simpl;
    rewrite ?obj_get_set_eq, ?obj_set_set, ?Hs; simpl;
    rewrite ?obj_set_set, <- ?app_assoc; try done.
Qed.

Lemma addDependencyToGenerator_throws d w :
  slot_usable (jhipsterConfig (target w)) = false ->
  addDependencyToGenerator d w = (Throw (TypeError "Cannot create property"), w).
Proof.
  destruct w as [[c i] evs].
  unfold slot_usable, addDependencyToGenerator, write_dependency,
    write_config, store_config, read_config, emit, mbind, eff_bind,
    mret, eff_ret.
  simpl.
  destruct (obj_get "springBootDependencies" c) as [[| |b|n|s|deps]|] eqn:Hs;
    simpl; intros Hu; try done;
    rewrite ?(proj1 (negb_false_iff _) Hu); simpl; rewrite ?Hs; done.
Qed.

Lemma slot_after_dependency_writes ws w :
  dependency_map (jhipsterConfig (target (perform_dependency_writes ws w)))
  = Some (apply_writes ws (initial_dependency_map (jhipsterConfig (target w)))).
Proof.
  unfold perform_dependency_writes, dependency_map. simpl.
  by rewrite obj_get_set_eq.
Qed.

Lemma perform_dependency_writes_app ws1 ws2 w :
  perform_dependency_writes ws2 (perform_dependency_writes ws1 w)
  = perform_dependency_writes (ws1 ++ ws2) w.
Proof.
  unfold perform_dependency_writes at 1.
  unfold initial_dependency_map. rewrite slot_after_dependency_writes.
  unfold perform_dependency_writes, slot_init_events, with_config. simpl.
  rewrite obj_get_set_eq, obj_set_set, apply_writes_app, fmap_app. simpl.
  by rewrite <- !app_assoc.
Qed.

Lemma slot_usable_after_dependency_writes ws w :
  slot_usable (jhipsterConfig (target (perform_dependency_writes ws w))) = true.
Proof.
  unfold perform_dependency_writes, slot_usable. simpl.
  by rewrite obj_get_set_eq.
Qed.

Lemma dependency_loop_run d deps w :
  slot_usable (jhipsterConfig (target w)) = true ->
  for_of addDependencyToGenerator (d :: deps) w
  = (Normal tt,
     perform_dependency_writes (dependency_write <$> d :: deps) w).
Proof.
  revert d w. induction deps as [|d' deps IH]; intros d w Hu.
  - rewrite for_of_cons. erewrite bind_normal
      by by apply addDependencyToGenerator_run.
    done.
  - rewrite for_of_cons. erewrite bind_normal
      by by apply addDependencyToGenerator_run.
    rewrite IH by apply slot_usable_after_dependency_writes.
    by rewrite perform_dependency_writes_app.
Qed.

Lemma dependency_loop_throws d deps w :
  slot_usable (jhipsterConfig (target w)) = false ->
  for_of addDependencyToGenerator (d :: deps) w
  = (Throw (TypeError "Cannot create property"), w).
Proof.
  intros Hu. rewrite for_of_cons.
  by erewrite bind_throw by by apply addDependencyToGenerator_throws.
Qed.

End Writes.

(** ** The builder *)

Lemma module_request_registered id c :
  c ≫= opt_module = None ->
  module_request id (default default_module_options c) = registered_request id c.
Proof. destruct c as [[[m|] en cf pr]|]; simpl; [done|done|done]. Qed.

Lemma modules_apply_calls cs this :
  modules (apply_calls cs this) = modules this ++ registered_modules cs.
Proof.
  revert this. induction cs as [|c cs IH]; intros this; simpl.
  - by rewrite app_nil_r.
  - unfold apply_calls in *. simpl. rewrite IH.
    destruct c; simpl; rewrite <- ?app_assoc; done.
Qed.

Lemma registered_modules_inject (regs : list (string * option ModuleOptions)) :
  registered_modules ((fun r => CallInjectModule r.1 r.2) <$> regs)
  = (fun r => module_request r.1 (default default_module_options r.2)) <$> regs.
Proof. induction regs as [|r regs IH]; simpl; [done|]. by f_equal. Qed.

(** C2, amended: after any sequence of [injectModule] calls on a new
    builder, [getModules()] has one entry per call, in the order of the
    calls, each being [{module, ...config}] for its call: the fields
    [enabled], [config] and [priority] are those of the configuration
    given, [{enabled: true}] alone when it is omitted, and the identifier
    is that of the call unless the configuration carries a [module] key of
    its own, which replaces it; so when no configuration carries one, every
    entry has the identifier and the configuration of its registration.
    Calls of the other methods in between change nothing to it. *)
Theorem getModules_lists_registrations
    (regs : list (string * option ModuleOptions)) (cs : list BuilderCall) :
  let this :=
    apply_calls ((fun r => CallInjectModule r.1 r.2) <$> regs)
                createSpringBootInjector in
  length (getModules this) = length regs
  /\ getModules this
     = (fun r => module_request r.1 (default default_module_options r.2))
       <$> regs
  /\ (Forall (fun r => r.2 ≫= opt_module = None) regs ->
      getModules this = (fun r => registered_request r.1 r.2) <$> regs)
  /\ (forall id c,
        module (module_request id (default default_module_options c))
        = default id (c ≫= opt_module)
        /\ enabled (module_request id (default default_module_options c))
           = enabled (registered_request id c)
        /\ config (module_request id (default default_module_options c))
           = config (registered_request id c)
        /\ priority (module_request id (default default_module_options c))
           = priority (registered_request id c))
  /\ getModules (apply_calls cs createSpringBootInjector) = registered_modules cs
  /\ getModules (injectModule "jhipster:spring-boot:jwt" None
                               createSpringBootInjector)
     = [{| module := "jhipster:spring-boot:jwt"; enabled := true;
           config := None; priority := None |}]
  /\ getModules
       (injectModule "jhipster:spring-boot:jwt"
          (Some {| opt_module := None;
                   opt_enabled := false;
                   opt_config := Some [("customOption", JString "value")];
                   opt_priority := Some 10 |})
          createSpringBootInjector)
     = [{| module := "jhipster:spring-boot:jwt"; enabled := false;
           config := Some [("customOption", JString "value")];
           priority := Some 10 |}].
Proof.
  intros this.
  assert (H : getModules this
              = (fun r => module_request r.1 (default default_module_options r.2))
                <$> regs).
  { unfold this, getModules.
    by rewrite modules_apply_calls, registered_modules_inject. }
  split; [by rewrite H, length_fmap|]. split; [done|].
  split; [|split; [|split; [|done]]].
  - intros Hall. rewrite H. apply Forall_fmap_ext_1.
    eapply Forall_impl; [exact Hall|].
    intros r Hr. by apply module_request_registered.
  - intros id c. by destruct c as [[[m|] en cf pr]|].
  - unfold getModules. by rewrite modules_apply_calls.
Qed.

Lemma getModules_lists_registrations_witness :
  Forall (fun r : string * option ModuleOptions => r.2 ≫= opt_module = None)
         [("jhipster:spring-boot:jwt", None);
          ("jhipster:spring-data:mongodb", with_priority 2)]
  /\ getModules
       (injectModule "jhipster:spring-data:mongodb" (with_priority 2)
          (injectModule "jhipster:spring-boot:jwt" None
                        createSpringBootInjector))
     = [registered_request "jhipster:spring-boot:jwt" None;
        registered_request "jhipster:spring-data:mongodb" (with_priority 2)].
Proof.
  assert (Hall : Forall (fun r : string * option ModuleOptions =>
                           r.2 ≫= opt_module = None)
                   [("jhipster:spring-boot:jwt", None);
                    ("jhipster:spring-data:mongodb", with_priority 2)])
    by (repeat constructor).
  split; [exact Hall|].
  exact (proj1 (proj2 (proj2 (getModules_lists_registrations
                                [("jhipster:spring-boot:jwt", None);
                                 ("jhipster:spring-data:mongodb",
                                  with_priority 2)] [])))
           Hall).
Defined.

(** Registered for JWT with an entry of OAuth2 for configuration, the
    request is listed with the identifier of OAuth2, not the one of its
    registration. *)
Lemma registration_identifier_replaced :
  getModules (injectModule "jhipster:spring-boot:jwt" oauth2_entry
                           createSpringBootInjector)
  = [{| module := "jhipster:spring-boot:oauth2"; enabled := true;
        config := None; priority := None |}]
  /\ getModules (injectModule "jhipster:spring-boot:jwt" oauth2_entry
                              createSpringBootInjector)
     <> [registered_request "jhipster:spring-boot:jwt" oauth2_entry].
Proof. split; [reflexivity|]. vm_compute. discriminate. Qed.

(** ** [applyTo] as a whole *)

Section Apply.
Context {G : Type}.
Variable compose :
  string -> option JsObject -> Generator G -> Completion unit * Generator G.

(** The failure of the first loop is the failure of [applyTo]. *)
Lemma applyTo_modules_throw this w e w1 :
  for_of (compose_step compose) (sorted_modules this) w = (Throw e, w1) ->
  applyTo compose this w = (Throw e, w1).
Proof. intros H. rewrite applyTo_loops. by apply bind_throw. Qed.

Lemma applyTo_modules_complete this w w1 :
  for_of (compose_step compose) (sorted_modules this) w = (Normal tt, w1) ->
  applyTo compose this w = writes_outcome this w1.
Proof.
  intros H. rewrite applyTo_loops. erewrite bind_normal by exact H.
  erewrite bind_normal by apply override_loop_run.
  unfold writes_outcome.
  destruct (dependencies this) as [|d deps]; [done|].
  destruct (slot_usable _) eqn:Hu.
  - by apply dependency_loop_run.
  - by apply dependency_loop_throws.
Qed.

(** The events the last two loops add are assignments. *)
Lemma writes_outcome_events this (w1 : World G) :
  exists rest,
    events (writes_outcome this w1).2 = events w1 ++ rest
    /\ Forall (fun e => is_compose_call e = false) rest.
Proof.
  unfold writes_outcome.
  set (ws := flat_map override_writes (propertyOverrides this)).
  assert (Hw : Forall (fun e => is_compose_call e = false) (write_event <$> ws)).
  { apply Forall_fmap, Forall_true. done. }
  destruct (dependencies this) as [|d deps].
  { exists (write_event <$> ws). done. }
  destruct (slot_usable _).
  - eexists. split.
    + unfold perform_dependency_writes, perform_writes. cbn [events].
      rewrite <- !app_assoc. reflexivity.
    + apply Forall_app. split; [done|].
      apply Forall_app. split.
      * unfold slot_init_events. case_match; repeat constructor.
      * apply Forall_fmap, Forall_true. done.
  - exists (write_event <$> ws). done.
Qed.

Lemma filter_compose_calls (ms : list SpringBootModuleConfig) rest :
  Forall (fun e => is_compose_call e = false) rest ->
  filter is_compose_call ((call_event <$> ms) ++ rest) = call_event <$> ms.
Proof.
  intros Hrest. rewrite filter_app.
  assert (filter is_compose_call rest = []) as ->.
  { induction Hrest as [|e rest He _ IH]; [done|].
    rewrite filter_cons_False; [exact IH|].
    intros Hb. apply Is_true_true in Hb. congruence. }
  rewrite app_nil_r.
  induction ms as [|m ms IH]; [done|].
  rewrite fmap_cons, filter_cons_True by done. by rewrite IH.
Qed.

(** The composition calls of a run: those of an initial part of the enabled
    requests in sorted order, and of all of them unless a call fails. *)
Lemma applyTo_compose_calls this g :
  exists called,
    called `prefix_of` enabled_modules this
    /\ filter is_compose_call (events (run (applyTo compose this) g).2)
       = call_event <$> called
    /\ match (run (applyTo compose this) g).1 with
       | Normal _ => called = enabled_modules this
       | Throw _ => True
       end.
Proof.
  unfold run. set (w := {| target := g; events := [] |}).
  destruct (module_loop_calls compose (sorted_modules this) w)
    as (called & Hp & He & Hn).
  exists called. split; [done|].
  destruct (for_of (compose_step compose) (sorted_modules this) w)
    as [[[]|e] w1] eqn:Hloop; simpl in *.
  - rewrite (applyTo_modules_complete _ _ _ Hloop).
    destruct (writes_outcome_events this w1) as (rest & -> & Hrest).
    rewrite He. simpl. split; [by apply filter_compose_calls|].
    by destruct (writes_outcome this w1).1.
  - rewrite (applyTo_modules_throw _ _ _ _ Hloop). simpl. rewrite He. simpl.
    split; [|done].
    rewrite <- (app_nil_r (call_event <$> called)) at 1.
    by apply filter_compose_calls.
Qed.

End Apply.

(** ** The order of composition *)

Lemma StronglySorted_filter {A} (R : relation A) (P : A -> Prop)
    `{!forall x, Decision (P x)} (l : list A) :
  StronglySorted R l -> StronglySorted R (filter P l).
Proof.
  induction 1 as [|x l Hl IH Hx]; [constructor|].
  rewrite filter_cons. case_decide; [|done].
  constructor; [done|].
  rewrite Forall_forall in Hx. apply Forall_forall.
  intros y Hy. apply list_elem_of_filter in Hy as [_ Hy]. by apply Hx.
Qed.

Lemma filter_filter_comm {A} (P Q : A -> Prop)
    `{!forall x, Decision (P x)} `{!forall x, Decision (Q x)} (l : list A) :
  filter P (filter Q l) = filter Q (filter P l).
Proof.
  rewrite !list_filter_filter. apply list_filter_iff. intros x. tauto.
Qed.

(** The enabled requests, in the order of the loop, are in ascending order
    of priority, those of one priority in the order of registration. *)
Lemma enabled_modules_sorted_stable this :
  StronglySorted (key_le priority_or_0) (enabled_modules this)
  /\ forall p,
       filter (fun m => priority_or_0 m = p) (enabled_modules this)
       = filter (fun m => priority_or_0 m = p)
                (filter (fun m => enabled m = true) (modules this)).
Proof.
  unfold enabled_modules, sorted_modules. split.
  - apply StronglySorted_filter, (Array_sort_sorted priority_or_0).
  - intros p. rewrite filter_filter_comm.
    rewrite (Array_sort_stable priority_or_0). apply filter_filter_comm.
Qed.

(** C1: [applyTo] calls the composition interface only for enabled requests,
    in ascending order of priority (no priority counts as 0), requests of
    equal priority in the order of their registration: the requests are
    sorted stably, the enabled ones among them are in ascending order with
    ties as registered, the calls made are theirs in that order (those of
    an initial part of them if a call fails), and A(2), B(1), C(1) are
    composed as B, C, A. *)
Theorem applyTo_composes_enabled_by_priority {G}
    (compose : string -> option JsObject -> Generator G
               -> Completion unit * Generator G)
    (this : SpringBootModuleInjector) (g : Generator G) :
  sorted_modules this ≡ₚ modules this
  /\ StronglySorted (key_le priority_or_0) (sorted_modules this)
  /\ (forall p,
        filter (fun m => priority_or_0 m = p) (sorted_modules this)
        = filter (fun m => priority_or_0 m = p) (modules this))
  /\ StronglySorted (key_le priority_or_0) (enabled_modules this)
  /\ (forall p,
        filter (fun m => priority_or_0 m = p) (enabled_modules this)
        = filter (fun m => priority_or_0 m = p)
                 (filter (fun m => enabled m = true) (modules this)))
  /\ (exists called,
        called `prefix_of` enabled_modules this
        /\ filter is_compose_call (events (run (applyTo compose this) g).2)
           = call_event <$> called
        /\ match (run (applyTo compose this) g).1 with
           | Normal _ => called = enabled_modules this
           | Throw _ => True
           end)
  /\ events (run (applyTo always_completes injector_ABC) empty_generator).2
     = [ComposeCall "B" None; ComposeCall "C" None; ComposeCall "A" None]
  /\ events (run (applyTo always_completes injector_XZY) empty_generator).2
     = [ComposeCall "Y" None; ComposeCall "X" None; ComposeCall "Z" None].
Proof.
  split; [apply (Array_sort_perm priority_or_0)|].
  split; [apply (Array_sort_sorted priority_or_0)|].
  split; [intros p; apply (Array_sort_stable priority_or_0)|].
  split; [apply enabled_modules_sorted_stable|].
  split; [apply enabled_modules_sorted_stable|].
  split; [apply applyTo_compose_calls|].
  split; reflexivity.
Qed.

(** ** Failure of a composition *)

(** C4: when the collaborator fails on a request, after completing the
    calls for the enabled requests sorted before it, [applyTo] fails with
    that very error; the calls made are those up to the failing one, no
    assignment is made, and the generator is as the failing call left it. *)
Theorem applyTo_compose_failure_propagates {G}
    (compose : string -> option JsObject -> Generator G
               -> Completion unit * Generator G)
    (this : SpringBootModuleInjector) (g g1 g2 : Generator G)
    (pre post : list SpringBootModuleConfig) (m : SpringBootModuleConfig)
    (e : JsError) :
  enabled_modules this = pre ++ m :: post ->
  composed compose pre g = Some g1 ->
  compose (module m) (config m) g1 = (Throw e, g2) ->
  run (applyTo compose this) g
  = (Throw e, {| target := g2; events := call_event <$> pre ++ [m] |})
  /\ Forall (fun ev => is_compose_call ev = true)
            (events (run (applyTo compose this) g).2).
Proof.
  intros Hen Hpre Hm.
  assert (Hrun : run (applyTo compose this) g
                 = (Throw e, {| target := g2;
                                events := call_event <$> pre ++ [m] |})).
  { unfold run. apply applyTo_modules_throw.
    by rewrite (module_loop_fails compose _ pre m post g g1 g2 e []). }
  split; [done|]. rewrite Hrun. simpl.
  apply Forall_fmap, Forall_true. done.
Qed.

Lemma applyTo_compose_failure_propagates_witness :
  enabled_modules injector_full
  = [module_request "B" (default default_module_options (with_priority 1))]
    ++ module_request "C" (default default_module_options (with_priority 1))
    :: [module_request "A" (default default_module_options (with_priority 2))]
  /\ run (applyTo (fails_on "C") injector_full) empty_generator
     = (Throw (ExternalFailure (JString "no such generator")),
        {| target := with_config empty_generator [("composed", JNumber 1)];
           events := [ComposeCall "B" None; ComposeCall "C" None] |}).
Proof.
  split; [reflexivity|].
  apply (applyTo_compose_failure_propagates (fails_on "C") injector_full
           empty_generator
           (with_config empty_generator [("composed", JNumber 1)])
           (with_config empty_generator [("composed", JNumber 1)])
           [module_request "B" (default default_module_options (with_priority 1))]
           [module_request "A" (default default_module_options (with_priority 2))]
           (module_request "C" (default default_module_options (with_priority 1))));
    reflexivity.
Defined.

(** ** Nothing registered *)

(** C8: on a builder without registrations [applyTo] completes normally,
    makes no call and no assignment, and leaves the generator as it was. *)
Theorem applyTo_nothing_registered {G}
    (compose : string -> option JsObject -> Generator G
               -> Completion unit * Generator G)
    (g : Generator G) :
  run (applyTo compose createSpringBootInjector) g
  = (Normal tt, {| target := g; events := [] |}).
Proof.
  unfold run. erewrite applyTo_modules_complete by reflexivity.
  unfold writes_outcome. simpl. by rewrite perform_writes_nil.
Qed.

(** ** Disabled requests *)

Lemma enabled_modules_submseteq this :
  enabled_modules this ⊆+ filter (fun m => enabled m = true) (modules this).
Proof.
  unfold enabled_modules, sorted_modules.
  apply Permutation_submseteq, filter_Permutation.
  apply (Array_sort_perm priority_or_0).
Qed.

(** C7: a request registered with [enabled: false] is in [getModules()],
    whatever is registered afterwards, and no call of the composition
    interface is made for it: the calls made are those of some of the
    enabled requests, each used at most once, so an identifier registered
    only in disabled requests is never composed. *)
Theorem disabled_module_listed_not_composed {G}
    (compose : string -> option JsObject -> Generator G
               -> Completion unit * Generator G)
    (this : SpringBootModuleInjector) (later : list BuilderCall)
    (g : Generator G) (id : string) (c : ModuleOptions) :
  opt_enabled c = false ->
  let this' := apply_calls later (injectModule id (Some c) this) in
  module_request id c ∈ getModules this'
  /\ (exists called,
        filter is_compose_call (events (run (applyTo compose this') g).2)
        = call_event <$> called
        /\ called ⊆+ filter (fun m => enabled m = true) (modules this')
        /\ module_request id c ∉ called)
  /\ ((forall m, m ∈ modules this' -> module m = id -> enabled m = false) ->
      forall o, ComposeCall id o ∉ events (run (applyTo compose this') g).2).
Proof.
  intros Hc this'.
  destruct (applyTo_compose_calls compose this' g) as (called & Hp & He & _).
  assert (Hsub : called ⊆+ filter (fun m => enabled m = true) (modules this')).
  { etrans; [|apply enabled_modules_submseteq].
    destruct Hp as [k ->]. by apply submseteq_inserts_r. }
  assert (Hen : forall m, m ∈ called -> enabled m = true /\ m ∈ modules this').
  { intros m Hm. eapply elem_of_submseteq in Hm; [|exact Hsub].
    by apply list_elem_of_filter in Hm. }
  split; [|split].
  - unfold this', getModules. rewrite modules_apply_calls. simpl.
    apply elem_of_app. left. apply elem_of_app. right. by left.
  - exists called. split; [done|]. split; [done|].
    intros Hin. apply Hen in Hin as [Hin _]. simpl in Hin. congruence.
  - intros Hall o Hev.
    assert (Hin : ComposeCall id o
                  ∈ filter is_compose_call
                      (events (run (applyTo compose this') g).2)).
    { apply list_elem_of_filter. by split. }
    rewrite He in Hin. apply list_elem_of_fmap in Hin as (m & Hm & Hin).
    apply Hen in Hin as [Hin1 Hin2].
    injection Hm as Hid _. rewrite (Hall m Hin2) in Hin1; [done|by symmetry].
Qed.

Lemma disabled_module_listed_not_composed_witness :
  getModules injector_jwt_oauth2
  = [module_request "jhipster:spring-boot:jwt" default_module_options;
     module_request "jhipster:spring-boot:oauth2"
       {| opt_module := None; opt_enabled := false; opt_config := None;
          opt_priority := None |}]
  /\ events (run (applyTo always_completes injector_jwt_oauth2)
                 empty_generator).2
     = [ComposeCall "jhipster:spring-boot:jwt" None]
  /\ forall o,
       ComposeCall "jhipster:spring-boot:oauth2" o
       ∉ events (run (applyTo always_completes injector_jwt_oauth2)
                     empty_generator).2.
Proof.
  split; [reflexivity|]. split; [reflexivity|].
  apply (disabled_module_listed_not_composed always_completes
           (injectModule "jhipster:spring-boot:jwt" None createSpringBootInjector)
           [] empty_generator "jhipster:spring-boot:oauth2"
           {| opt_module := None; opt_enabled := false; opt_config := None;
              opt_priority := None |}).
  - reflexivity.
  - intros m Hm Hid. simpl in Hm.
    apply elem_of_cons in Hm as [->|Hm]; [discriminate|].
    apply list_elem_of_singleton in Hm. by subst m.
Defined.

(** ** Arrays returned by the accessors *)

Section Copies.
Import Obj.
Implicit Types (h : Heap) (this : Injector).

Lemma alloc_fresh rs h : arrays h !! (alloc rs h).1 = None.
Proof. unfold alloc. simpl. apply not_elem_of_dom, is_fresh. Qed.

Lemma elements_alloc_new rs h : elements (alloc rs h).1 (alloc rs h).2 = rs.
Proof. unfold elements, alloc. simpl. by rewrite lookup_insert_eq. Qed.

Lemma lookup_alloc_old rs h l :
  is_Some (arrays h !! l) -> arrays (alloc rs h).2 !! l = arrays h !! l.
Proof.
  intros [ys Hl]. unfold alloc. simpl. apply lookup_insert_ne.
  intros <-. pose proof (alloc_fresh rs h) as Hf. unfold alloc in Hf.
  simpl in Hf. congruence.
Qed.

Lemma keeps_objects_refl h : keeps_objects h h.
Proof. by intros r x. Qed.

Lemma keeps_objects_trans h1 h2 h3 :
  keeps_objects h1 h2 -> keeps_objects h2 h3 -> keeps_objects h1 h3.
Proof. intros H12 H23 r x Hr. by apply H23, H12. Qed.

Lemma alloc_object_keeps x h : keeps_objects h (alloc_object x h).2.
Proof.
  intros r y Hr. unfold alloc_object. simpl.
  rewrite lookup_insert_ne; [done|]. intros <-.
  pose proof (is_fresh (dom (objects h))) as Hf.
  apply not_elem_of_dom in Hf. congruence.
Qed.

Lemma push_keeps l x h : keeps_objects h (push l x h).
Proof. apply (alloc_object_keeps x h). Qed.

Lemma deref_keeps h h' rs :
  allocated h rs -> keeps_objects h h' -> deref h' rs = deref h rs.
Proof.
  unfold allocated, deref. intros Hrs Hk.
  induction Hrs as [|r rs [x Hr] _ IH]; [done|].
  simpl. rewrite (Hk r x Hr), Hr. f_equal. exact IH.
Qed.

Lemma allocated_keeps h h' rs :
  allocated h rs -> keeps_objects h h' -> allocated h' rs.
Proof.
  unfold allocated. intros Hrs Hk. eapply Forall_impl; [done|].
  intros r [x Hr]. exists x. by apply Hk.
Qed.

Lemma elements_push_eq l x h :
  is_Some (arrays h !! l) ->
  elements l (push l x h) = elements l h ++ [fresh (dom (objects h))].
Proof.
  intros [ys Hl]. unfold elements, push. simpl.
  by rewrite lookup_alter_eq, Hl.
Qed.

Lemma lookup_push_ne l l' x h :
  l <> l' -> arrays (push l x h) !! l' = arrays h !! l'.
Proof. intros Hne. unfold push. simpl. by apply lookup_alter_ne. Qed.

Lemma lookup_push_is_Some l l' x h :
  is_Some (arrays h !! l') -> is_Some (arrays (push l x h) !! l').
Proof.
  intros Hl. unfold push. simpl. destruct (decide (l = l')) as [->|Hne].
  - rewrite lookup_alter_eq. by apply fmap_is_Some.
  - by rewrite lookup_alter_ne.
Qed.

Lemma push_new_object l x h :
  objects (push l x h) !! fresh (dom (objects h)) = Some x.
Proof. unfold push. simpl. apply lookup_insert_eq. Qed.

Lemma contents_push_eq l x h :
  is_Some (arrays h !! l) -> allocated h (elements l h) ->
  contents l (push l x h) = contents l h ++ [x].
Proof.
  intros Hl Ha. unfold contents. rewrite elements_push_eq by done.
  unfold deref at 1. rewrite omap_app. fold (deref (push l x h) (elements l h)).
  rewrite (deref_keeps h) by (done || apply push_keeps).
  f_equal. pose proof (push_new_object l x h) as Hn.
  unfold push in *. simpl in *. by rewrite Hn.
Qed.

Lemma contents_push_ne l l' x h :
  l <> l' -> allocated h (elements l' h) ->
  contents l' (push l x h) = contents l' h.
Proof.
  intros Hne Ha. unfold contents, elements.
  rewrite lookup_push_ne by done.
  apply deref_keeps; [done|apply push_keeps].
Qed.

Lemma allocated_push l l' x h :
  allocated h (elements l' h) ->
  allocated (push l x h) (elements l' (push l x h)).
Proof.
  intros Ha. destruct (decide (l = l')) as [<-|Hne].
  - destruct (arrays h !! l) as [ys|] eqn:Hl.
    + rewrite elements_push_eq by (by rewrite Hl). apply Forall_app. split.
      * eapply allocated_keeps; [done|apply push_keeps].
      * apply Forall_singleton. rewrite push_new_object. by eexists.
    + unfold elements, push. simpl. rewrite lookup_alter_eq, Hl. constructor.
  - unfold elements. rewrite lookup_push_ne by done.
    eapply allocated_keeps; [done|apply push_keeps].
Qed.

Lemma wf_push this l x h : wf this h -> wf this (push l x h).
Proof.
  unfold wf. intros (?&?&?&?&?&?&?&?&?).
  repeat split; try done;
    first [by apply lookup_push_is_Some | by apply allocated_push].
Qed.

(** The state of an instance depends on its three arrays and on the objects
    they name. *)
Lemma state_eq this h h' :
  wf this h ->
  arrays h' !! modules this = arrays h !! modules this ->
  arrays h' !! propertyOverrides this = arrays h !! propertyOverrides this ->
  arrays h' !! dependencies this = arrays h !! dependencies this ->
  keeps_objects h h' ->
  wf this h' /\ state this h' = state this h.
Proof.
  unfold wf, state, contents, elements.
  intros (?&?&?&?&?&?&?&?&?) -> -> -> Hk. split.
  - repeat split; try done; by eapply allocated_keeps.
  - by rewrite !(deref_keeps h h').
Qed.

(** A call keeps the instance in the heap, changes the contents of its
    arrays as [state_after_call] says, keeps the objects there are, and
    leaves every other array that exists as it is. *)
Lemma run_call_spec this h c :
  wf this h ->
  wf this (run_call this h c)
  /\ state this (run_call this h c) = state_after_call (state this h) c
  /\ keeps_objects h (run_call this h c)
  /\ forall r, is_Some (arrays h !! r) ->
       r <> modules this -> r <> propertyOverrides this ->
       r <> dependencies this ->
       arrays (run_call this h c) !! r = arrays h !! r.
Proof.
  intros Hwf.
  pose proof Hwf as (Hm & Hp & Hd & Hmp & Hmd & Hpd & Am & Ap & Ad).
  destruct c; cbn [run_call];
    unfold injectModule, overrideProperty, addDependency,
      getModules, getPropertyOverrides, getDependencies, spread.
  1-3: split; [by apply wf_push|];
       split; [|split; [apply push_keeps|intros; by apply lookup_push_ne]];
       unfold state; cbn [state_after_call fst snd];
       rewrite contents_push_eq by done;
       rewrite !contents_push_ne by done; done.
  all: match goal with
       | |- context [alloc ?rs ?h0] =>
           destruct (state_eq this h0 (alloc rs h0).2 Hwf) as [Hwf' Hst];
             [by apply lookup_alloc_old..|intros r x Hr; exact Hr|]
       end;
       split; [done|]; split; [done|];
       split; [intros r x Hr; exact Hr|intros; by apply lookup_alloc_old].
Qed.

Lemma run_calls_spec this cs h :
  wf this h ->
  wf this (run_calls this cs h)
  /\ state this (run_calls this cs h)
     = fold_left state_after_call cs (state this h)
  /\ keeps_objects h (run_calls this cs h)
  /\ forall r, is_Some (arrays h !! r) ->
       r <> modules this -> r <> propertyOverrides this ->
       r <> dependencies this ->
       arrays (run_calls this cs h) !! r = arrays h !! r.
Proof.
  revert h. induction cs as [|c cs IH]; intros h Hwf.
  { split; [done|]. split; [done|]. split; [apply keeps_objects_refl|done]. }
  unfold run_calls in *. simpl.
  destruct (run_call_spec this h c Hwf) as (Hwf' & Hst & Hk & Hframe).
  destruct (IH _ Hwf') as (Hwf'' & Hst' & Hk' & Hframe').
  split; [done|]. split; [by rewrite Hst', Hst|].
  split; [by eapply keeps_objects_trans|].
  intros r Hr H1 H2 H3. rewrite Hframe' by (by rewrite ?Hframe).
  by apply Hframe.
Qed.

Lemma mutate_spec this r f h :
  wf this h ->
  r <> modules this -> r <> propertyOverrides this -> r <> dependencies this ->
  wf this (mutate r f h)
  /\ state this (mutate r f h) = state this h
  /\ elements r (mutate r f h) = default [] (f <$> arrays h !! r)
  /\ (is_Some (arrays h !! r) -> is_Some (arrays (mutate r f h) !! r)).
Proof.
  intros Hwf Hm Hp Hd.
  assert (Hst : wf this (mutate r f h)
                /\ state this (mutate r f h) = state this h).
  { apply state_eq; try done; try (by apply lookup_alter_ne).
    intros l x Hl; exact Hl. }
  destruct Hst as [Hwf' Hst].
  split; [done|]. split; [done|]. split.
  - unfold elements, mutate. simpl. by rewrite lookup_alter_eq.
  - intros Hr. unfold mutate. simpl. rewrite lookup_alter_eq.
    by apply fmap_is_Some.
Qed.

Lemma run_steps_spec this r ss h :
  wf this h -> is_Some (arrays h !! r) ->
  r <> modules this -> r <> propertyOverrides this -> r <> dependencies this ->
  state this (run_steps this r ss h)
  = fold_left state_after_call (calls_of ss) (state this h)
  /\ elements r (run_steps this r ss h)
     = fold_left (fun rs f => f rs) (mutations_of ss) (elements r h).
Proof.
  intros Hwf Hr Hm Hp Hd. revert h Hwf Hr.
  induction ss as [|s ss IH]; intros h Hwf Hr; [done|].
  unfold run_steps in *. simpl. destruct s as [c|x|f]; simpl.
  - destruct (run_call_spec this h c Hwf) as (Hwf' & Hst & _ & Hframe).
    specialize (Hframe r Hr Hm Hp Hd).
    destruct (IH (run_call this h c)) as [IH1 IH2]; [done|by rewrite Hframe|].
    rewrite IH1, IH2, Hst. unfold elements. by rewrite Hframe.
  - destruct (state_eq this h (alloc_object x h).2 Hwf) as [Hwf' Hst];
      try done; [apply alloc_object_keeps|].
    destruct (IH (alloc_object x h).2) as [IH1 IH2]; [done|done|].
    rewrite Hst in IH1. split; [exact IH1|exact IH2].
  - destruct (mutate_spec this r f h Hwf Hm Hp Hd) as (Hwf' & Hst & Hc & Hr').
    destruct (IH (mutate r f h)) as [IH1 IH2]; [done|by apply Hr'|].
    rewrite IH1, IH2, Hst, Hc. destruct Hr as [xs Hxs].
    unfold elements. by rewrite Hxs.
Qed.

(** [[...this.xs]] for any of the three arrays. *)
Lemma spread_shallow this l h :
  wf this h ->
  l ∈ [modules this; propertyOverrides this; dependencies this] ->
  shallow_copy this l h (spread l h).1 (spread l h).2.
Proof.
  intros Hwf Hl.
  pose proof Hwf as (Hm & Hp & Hd & _ & _ & _ & Am & Ap & Ad).
  assert (Hl' : is_Some (arrays h !! l) /\ allocated h (elements l h)).
  { set_unfold in Hl. destruct Hl as [->|[->|[->|[]]]]; by split. }
  destruct Hl' as [Hsl Hal].
  unfold spread. set (rs := elements l h).
  pose proof (alloc_fresh rs h) as Hfresh.
  assert (Hne : forall l', is_Some (arrays h !! l') -> (alloc rs h).1 <> l').
  { intros l' [ys Hl'] Heq. congruence. }
  assert (Hst : wf this (alloc rs h).2
                /\ state this (alloc rs h).2 = state this h).
  { apply state_eq; try done; try (by apply lookup_alloc_old).
    intros l' x Hx; exact Hx. }
  destruct Hst as [Hwf1 Hst].
  assert (Hr : is_Some (arrays (alloc rs h).2 !! (alloc rs h).1)).
  { unfold alloc. simpl. rewrite lookup_insert_eq. by eexists. }
  assert (Hel : elements (alloc rs h).1 (alloc rs h).2 = elements l h).
  { apply elements_alloc_new. }
  assert (Hel1 : elements l (alloc rs h).2 = elements l h).
  { unfold elements. by rewrite lookup_alloc_old. }
  split; [done|]. split; [done|].
  split; [unfold contents; by rewrite Hel|].
  split; [done|]. split; [|split].
  - intros cs.
    destruct (run_calls_spec this cs _ Hwf1) as (_ & _ & Hk & Hframe).
    unfold contents, elements at 1.
    rewrite Hframe by auto. fold (elements (alloc rs h).1 (alloc rs h).2).
    rewrite Hel. by apply deref_keeps.
  - intros ss. apply run_steps_spec; auto.
  - intros i f. unfold contents.
    assert (Harr : forall a, elements a (update_element (alloc rs h).1 i f
                                           (alloc rs h).2)
                             = elements a (alloc rs h).2).
    { intros a. unfold update_element.
      by destruct (elements (alloc rs h).1 (alloc rs h).2 !! i). }
    by rewrite !Harr, Hel, Hel1.
Qed.

(** The constructor puts the instance in the heap, with empty arrays. *)
Lemma new_wf h :
  wf (new h).1 (new h).2 /\ state (new h).1 (new h).2 = ([], [], []).
Proof.
  unfold new.
  pose proof (alloc_fresh [] h) as F1.
  destruct (alloc [] h) as [m h1] eqn:E1.
  pose proof (alloc_fresh [] h1) as F2.
  destruct (alloc [] h1) as [p h2] eqn:E2.
  pose proof (alloc_fresh [] h2) as F3.
  destruct (alloc [] h2) as [d h3] eqn:E3.
  simpl in *.
  assert (H1 : arrays h1 !! m = Some []).
  { unfold alloc in E1. injection E1 as <- <-. apply lookup_insert_eq. }
  assert (H2 : arrays h2 !! p = Some [] /\ arrays h2 !! m = Some []) .
  { unfold alloc in E2. injection E2 as <- <-. simpl.
    split; [apply lookup_insert_eq|].
    rewrite lookup_insert_ne; [done|]. intros Heq. congruence. }
  destruct H2 as [H2p H2m].
  assert (H3 : arrays h3 !! d = Some [] /\ arrays h3 !! p = Some []
               /\ arrays h3 !! m = Some []).
  { unfold alloc in E3. injection E3 as <- <-. simpl.
    split; [apply lookup_insert_eq|].
    split; (rewrite lookup_insert_ne; [done|]; intros Heq; congruence). }
  destruct H3 as (H3d & H3p & H3m).
  split.
  - unfold wf, allocated, elements. simpl. rewrite H3d, H3p, H3m.
    repeat split; try (by eexists); try (by constructor).
    all: intros Heq; congruence.
  - unfold state, contents, elements. simpl. by rewrite H3d, H3p, H3m.
Qed.

Lemma new_fresh h :
  arrays h !! modules (new h).1 = None
  /\ arrays h !! propertyOverrides (new h).1 = None
  /\ arrays h !! dependencies (new h).1 = None
  /\ objects (new h).2 = objects h
  /\ forall l, is_Some (arrays h !! l) ->
       arrays (new h).2 !! l = arrays h !! l.
Proof.
  unfold new.
  pose proof (alloc_fresh [] h) as F1.
  pose proof (lookup_alloc_old [] h) as O1.
  assert (B1 : objects (alloc [] h).2 = objects h) by done.
  destruct (alloc [] h) as [m h1] eqn:E1.
  pose proof (alloc_fresh [] h1) as F2.
  pose proof (lookup_alloc_old [] h1) as O2.
  assert (B2 : objects (alloc [] h1).2 = objects h1) by done.
  destruct (alloc [] h1) as [p h2] eqn:E2.
  pose proof (alloc_fresh [] h2) as F3.
  pose proof (lookup_alloc_old [] h2) as O3.
  assert (B3 : objects (alloc [] h2).2 = objects h2) by done.
  destruct (alloc [] h2) as [d h3] eqn:E3.
  simpl in *.
  assert (Hsub1 : forall l, arrays h !! l = None
                            \/ arrays h1 !! l = arrays h !! l).
  { intros l. destruct (arrays h !! l) eqn:El; [right|by left].
    rewrite O1 by (by rewrite El). done. }
  assert (Hsub2 : forall l, arrays h1 !! l = None
                            \/ arrays h2 !! l = arrays h1 !! l).
  { intros l. destruct (arrays h1 !! l) eqn:El; [right|by left].
    rewrite O2 by (by rewrite El). done. }
  split; [done|].
  split.
  { destruct (Hsub1 p) as [?|Hp]; [done|]. by rewrite <- Hp. }
  split.
  { destruct (Hsub1 d) as [?|Hd]; [done|]. rewrite <- Hd.
    destruct (Hsub2 d) as [?|Hd2]; [done|]. by rewrite <- Hd2. }
  split; [congruence|].
  intros l Hl.
  rewrite O3, O2, O1; try done.
  - by rewrite O1.
  - rewrite O2, O1; try done. by rewrite O1.
Qed.

End Copies.

Lemma decode_after_call s c :
  Obj.decode (Obj.state_after_call s c) = apply_call (Obj.decode s) c.
Proof.
  destruct s as [[ms ps] ds].
  destruct c; unfold Obj.decode, injectModule, overrideProperty, addDependency;
    simpl; rewrite ?omap_app, ?app_nil_r; done.
Qed.

(** The instance in the heap behaves as the builder it stands for. *)
Lemma view_run_calls this cs h :
  Obj.wf this h ->
  Obj.view this (Obj.run_calls this cs h) = apply_calls cs (Obj.view this h).
Proof.
  revert h. induction cs as [|c cs IH]; intros h Hwf; [done|].
  unfold Obj.run_calls, apply_calls in *. simpl.
  destruct (run_call_spec this h c Hwf) as (Hwf' & Hst & _).
  rewrite IH by done. unfold Obj.view. by rewrite Hst, decode_after_call.
Qed.

(** C3, as the spec words it, fails: the array an accessor returns holds
    the builder's own element objects, so a caller that sets [enabled] of
    the first element of the array [getModules] returned to [false] changes
    the builder: its module is disabled afterwards, [getModules] shows it
    disabled, and [applyTo] no longer composes it. *)
Lemma element_change_reaches_builder :
  Obj.wf sample_instance sample_heap
  /\ Obj.view sample_instance sample_heap_returned
     = injectModule "A" None createSpringBootInjector
  /\ Obj.view sample_instance sample_heap_changed
     = injectModule "A" disabled createSpringBootInjector
  /\ Obj.state sample_instance sample_heap_changed
     <> Obj.state sample_instance sample_heap_returned
  /\ Obj.contents (Obj.getModules sample_instance sample_heap_changed).1
       (Obj.getModules sample_instance sample_heap_changed).2
     = [Obj.EModule {| module := "A"; enabled := false;
                       config := None; priority := None |}]
  /\ events (run (applyTo always_completes
                    (Obj.view sample_instance sample_heap_returned))
                 empty_generator).2
     = [ComposeCall "A" None]
  /\ events (run (applyTo always_completes
                    (Obj.view sample_instance sample_heap_changed))
                 empty_generator).2
     = [].
Proof.
  split.
  { vm_compute. repeat split; eauto; try discriminate.
    all: repeat constructor; eauto. }
  repeat split; try reflexivity. vm_compute. discriminate.
Qed.

(** C3, amended: each accessor returns a new array that holds the elements
    of the internal one in insertion order, the element objects being the
    builder's own (a shallow copy).  The calls of the builder's methods made
    afterwards do not change what the returned array holds; whatever calls
    are made and whatever elements are added to, removed from, replaced or
    reordered in the returned array, the builder's arrays change only by
    the calls of its methods and the returned array only by the changes
    made to it; a change of a field of an element made through the returned
    array is a change of the builder's element.  The instance holds what
    the calls registered, in the order of the calls. *)
Theorem accessors_return_shallow_copies
    (this : Obj.Injector) (h : Obj.Heap) (cs : list BuilderCall) :
  Obj.wf this h ->
  Obj.shallow_copy this (Obj.modules this) h
      (Obj.getModules this h).1 (Obj.getModules this h).2
  /\ Obj.shallow_copy this (Obj.propertyOverrides this) h
      (Obj.getPropertyOverrides this h).1 (Obj.getPropertyOverrides this h).2
  /\ Obj.shallow_copy this (Obj.dependencies this) h
      (Obj.getDependencies this h).1 (Obj.getDependencies this h).2
  /\ Obj.view this (Obj.run_calls this cs h) = apply_calls cs (Obj.view this h)
  /\ Obj.view (Obj.new h).1 (Obj.run_calls (Obj.new h).1 cs (Obj.new h).2)
     = apply_calls cs createSpringBootInjector.
Proof.
  intros Hwf.
  split; [apply spread_shallow; [done|set_solver]|].
  split; [apply spread_shallow; [done|set_solver]|].
  split; [apply spread_shallow; [done|set_solver]|].
  split; [by apply view_run_calls|].
  destruct (new_wf h) as [Hnew Hst].
  rewrite view_run_calls by done. unfold Obj.view. by rewrite Hst.
Qed.

Lemma accessors_return_shallow_copies_witness :
  Obj.wf sample_instance sample_heap
  /\ Obj.shallow_copy sample_instance (Obj.modules sample_instance)
       sample_heap
       (Obj.getModules sample_instance sample_heap).1
       (Obj.getModules sample_instance sample_heap).2
  /\ Obj.view sample_instance sample_heap
     = injectModule "A" None createSpringBootInjector.
Proof.
  assert (Hwf : Obj.wf sample_instance sample_heap).
  { vm_compute. repeat split; eauto; try discriminate.
    all: repeat constructor; eauto. }
  split; [exact Hwf|].
  split; [|reflexivity].
  exact (proj1 (accessors_return_shallow_copies
                  sample_instance sample_heap [] Hwf)).
Defined.

(** ** The assignments of the property overrides *)

(** [Object.entries] lists every property once. *)
Lemma Object_entries_perm o : Object_entries o ≡ₚ o.
Proof.
  unfold Object_entries, named_entries, index_entries.
  rewrite (Array_sort_perm index_of), Permutation_app_comm.
  apply filter_app_complement.
Qed.

(** It lists the array indices in ascending order, then the other keys as
    they were created. *)
Lemma Object_entries_order o :
  exists indices,
    Object_entries o = indices ++ filter (fun kv => array_index kv.1 = None) o
    /\ indices ≡ₚ filter (fun kv => array_index kv.1 <> None) o
    /\ StronglySorted (key_le index_of) indices.
Proof.
  exists (Array_sort (by_key index_of) (index_entries o)).
  split; [done|]. split.
  - apply (Array_sort_perm index_of).
  - apply (Array_sort_sorted index_of).
Qed.

(** Without array indices among the keys, it lists them as created. *)
Lemma Object_entries_named o :
  Forall (fun kv => array_index kv.1 = None) o -> Object_entries o = o.
Proof.
  intros Hall.
  assert (Hi : index_entries o = []).
  { unfold index_entries.
    induction Hall as [|kv o Hkv _ IH]; [done|].
    by rewrite filter_cons_False by (by intros H; apply H). }
  assert (Hn : named_entries o = o).
  { clear Hi. unfold named_entries.
    induction Hall as [|kv o Hkv _ IH]; [done|].
    rewrite filter_cons_True by done. by f_equal. }
  unfold Object_entries. by rewrite Hi, Hn.
Qed.

Lemma applyTo_events_complete {G}
    (compose : string -> option JsObject -> Generator G
               -> Completion unit * Generator G)
    this (g g1 : Generator G) :
  composed compose (enabled_modules this) g = Some g1 ->
  events (run (applyTo compose this) g).2
  = (call_event <$> enabled_modules this)
    ++ (write_event <$> property_writes this)
    ++ dependency_events this
         (apply_writes (property_writes this) (jhipsterConfig g1)).
Proof.
  intros Hc. unfold run.
  erewrite applyTo_modules_complete
    by (apply module_loop_completes; exact Hc).
  unfold writes_outcome, dependency_events, property_writes.
  destruct (dependencies this) as [|d deps]; simpl.
  { by rewrite app_nil_r. }
  destruct (slot_usable _); simpl; [|by rewrite app_nil_r].
  rewrite <- !app_assoc. do 3 f_equal.
  by rewrite <- list_fmap_compose.
Qed.

(** C5, amended: each property override is applied by assigning the base
    value under its path and then, when there is a profile map, one value
    per profile under [path@profile], the profiles in the order of
    [Object.entries]: every profile once, those whose name is an array
    index first, in ascending order, then the others in the order in which
    the map was built; so in that order when no profile name is an array
    index.  When the modules
    compose, the assignments of [applyTo] between the calls and the
    dependencies are exactly these, override after override. *)
Theorem applyTo_property_writes {G}
    (compose : string -> option JsObject -> Generator G
               -> Completion unit * Generator G)
    (this : SpringBootModuleInjector) (g g1 : Generator G) :
  composed compose (enabled_modules this) g = Some g1 ->
  events (run (applyTo compose this) g).2
  = (call_event <$> enabled_modules this)
    ++ (write_event <$> flat_map override_writes (propertyOverrides this))
    ++ dependency_events this
         (apply_writes (property_writes this) (jhipsterConfig g1))
  /\ (forall o (w : World G),
        applyPropertyOverride o w
        = (Normal tt, perform_writes (override_writes o) w))
  /\ (forall o ps, profiles o = Some ps ->
        override_writes o ≡ₚ override_writes_in_insertion_order o
        /\ (Forall (fun kv => array_index kv.1 = None) ps ->
            override_writes o = override_writes_in_insertion_order o))
  /\ (forall ps,
        exists indices,
          Object_entries ps
          = indices ++ filter (fun kv => array_index kv.1 = None) ps
          /\ indices ≡ₚ filter (fun kv => array_index kv.1 <> None) ps
          /\ StronglySorted (key_le index_of) indices)
  /\ override_writes
       (property_override "logging.level.root" (JString "INFO")
          (default default_property_options logging_options))
     = [("logging.level.root", JString "INFO");
        ("logging.level.root@dev", JString "DEBUG");
        ("logging.level.root@prod", JString "WARN")].
Proof.
  intros Hc.
  split; [by apply applyTo_events_complete|].
  split; [intros; apply applyPropertyOverride_run|].
  split; [|split; [apply Object_entries_order|reflexivity]].
  intros o ps Hps. unfold override_writes, override_writes_in_insertion_order.
  rewrite Hps. split.
  - by rewrite Object_entries_perm.
  - intros Hall. by rewrite Object_entries_named.
Qed.

Lemma applyTo_property_writes_witness :
  composed always_completes (enabled_modules injector_full) empty_generator
  = Some empty_generator
  /\ events (run (applyTo always_completes injector_full) empty_generator).2
     = [ComposeCall "B" None; ComposeCall "C" None; ComposeCall "A" None;
        ConfigWrite "logging.level.root" (JString "INFO");
        ConfigWrite "logging.level.root@dev" (JString "DEBUG");
        ConfigWrite "logging.level.root@prod" (JString "WARN");
        ConfigWrite "springBootDependencies" (JObject []);
        DependencyWrite "com.example:lib" (JString "1.0.0");
        DependencyWrite "com.example:lib" (JString "2.0.0")]
  /\ override_writes
       (property_override "logging.level.root" (JString "INFO")
          (default default_property_options logging_options))
     = override_writes_in_insertion_order
         (property_override "logging.level.root" (JString "INFO")
            (default default_property_options logging_options)).
Proof.
  split; [reflexivity|].
  pose proof (applyTo_property_writes always_completes injector_full
                empty_generator empty_generator eq_refl)
    as (Hev & _ & Horder & _).
  split; [rewrite Hev; reflexivity|].
  apply (proj2 (Horder
                  (property_override "logging.level.root" (JString "INFO")
                     (default default_property_options logging_options))
                  [("dev", JString "DEBUG"); ("prod", JString "WARN")]
                  eq_refl)).
  repeat constructor.
Defined.

(** The profiles "10" and "2" are written as "2", then "10": not in the
    order in which the profile map was built. *)
Lemma profile_writes_not_in_insertion_order :
  events (run (applyTo always_completes injector_port) empty_generator).2
  = [ConfigWrite "server.port" (JNumber 8080);
     ConfigWrite "server.port@2" (JNumber 8002);
     ConfigWrite "server.port@10" (JNumber 8010)]
  /\ events (run (applyTo always_completes injector_port) empty_generator).2
     <> write_event
        <$> flat_map override_writes_in_insertion_order
                     (propertyOverrides injector_port).
Proof. split; [reflexivity|]. vm_compute. discriminate. Qed.

(** ** The entries of the dependency map *)

Lemma filter_fmap_none {A} (f : A -> Event) (P : Event -> bool) (l : list A) :
  (forall x, P (f x) = false) -> filter P (f <$> l) = [].
Proof.
  intros HP. induction l as [|x l IH]; [done|].
  rewrite fmap_cons, filter_cons_False; [done|].
  rewrite HP. simpl. tauto.
Qed.

Lemma filter_fmap_all {A} (f : A -> Event) (P : Event -> bool) (l : list A) :
  (forall x, P (f x) = true) -> filter P (f <$> l) = f <$> l.
Proof.
  intros HP. induction l as [|x l IH]; [done|].
  rewrite fmap_cons, filter_cons_True; [by rewrite IH|].
  by rewrite HP.
Qed.

Lemma filter_slot_init c : filter is_dependency_write (slot_init_events c) = [].
Proof. unfold slot_init_events. by case_match. Qed.

Lemma applyTo_dependency_outcome {G}
    (compose : string -> option JsObject -> Generator G
               -> Completion unit * Generator G)
    this (g g1 : Generator G) d deps :
  composed compose (enabled_modules this) g = Some g1 ->
  dependencies this = d :: deps ->
  slot_usable (apply_writes (property_writes this) (jhipsterConfig g1)) = true ->
  run (applyTo compose this) g
  = (Normal tt,
     perform_dependency_writes (dependency_write <$> dependencies this)
       (perform_writes (property_writes this)
          {| target := g1; events := call_event <$> enabled_modules this |})).
Proof.
  intros Hc Hd Hu. unfold run.
  erewrite applyTo_modules_complete
    by (apply module_loop_completes; exact Hc).
  unfold writes_outcome. rewrite Hd. rewrite <- Hd. simpl.
  unfold property_writes in Hu. by rewrite Hu.
Qed.

(** C6, amended: when the modules compose and, once the property overrides
    are applied, the slot [springBootDependencies] of the configuration is
    empty, falsy or an object, [applyTo] completes and writes for each
    declaration, in the order of registration, the entry
    [groupId:artifactId] with the declared version or ["BOM"]; the map
    holds under each key the value of the last declaration with that key,
    and keeps the entries it had under the other keys. *)
Theorem applyTo_dependency_writes {G}
    (compose : string -> option JsObject -> Generator G
               -> Completion unit * Generator G)
    (this : SpringBootModuleInjector) (g g1 : Generator G) :
  composed compose (enabled_modules this) g = Some g1 ->
  slot_usable (apply_writes (property_writes this) (jhipsterConfig g1)) = true ->
  (run (applyTo compose this) g).1 = Normal tt
  /\ filter is_dependency_write (events (run (applyTo compose this) g).2)
     = dependency_event <$> dependencies this
  /\ (forall before d after,
        dependencies this = before ++ d :: after ->
        exists deps,
          dependency_map (jhipsterConfig (target (run (applyTo compose this) g).2))
          = Some deps
          /\ (Forall (fun d' => dependency_key d' <> dependency_key d) after ->
              obj_get (dependency_key d) deps = Some (dependency_value d))
          /\ (forall k,
                Forall (fun d' => dependency_key d' <> k) (dependencies this) ->
                obj_get k deps
                = obj_get k
                    (initial_dependency_map
                       (apply_writes (property_writes this)
                                     (jhipsterConfig g1)))))
  /\ (forall d, dependency_key d = groupId d +:+ ":" +:+ artifactId d)
  /\ (forall d v, version d = Some v -> dependency_value d = JString v)
  /\ (forall d, version d = None -> dependency_value d = JString "BOM")
  /\ dependency_map
       (jhipsterConfig
          (target (run (applyTo always_completes injector_full)
                       empty_generator).2))
     = Some [("com.example:lib", JString "2.0.0")].
Proof.
  intros Hc Hu.
  assert (Hev := applyTo_events_complete compose this g g1 Hc).
  split; [|split; [|split]].
  - destruct (dependencies this) as [|d deps] eqn:Hd.
    + unfold run. erewrite applyTo_modules_complete
        by (apply module_loop_completes; exact Hc).
      unfold writes_outcome. by rewrite Hd.
    + by erewrite applyTo_dependency_outcome.
  - rewrite Hev. unfold dependency_events. rewrite Hu.
    rewrite !filter_app, !filter_fmap_none by done. simpl.
    destruct (dependencies this) as [|d deps]; [done|].
    by rewrite filter_app, filter_slot_init, filter_fmap_all.
  - intros before d after Hd.
    assert (Hne : exists d0 deps0, dependencies this = d0 :: deps0).
    { rewrite Hd. destruct before; eauto. }
    destruct Hne as (d0 & deps0 & Hd0).
    erewrite applyTo_dependency_outcome by done. cbn [snd].
    rewrite slot_after_dependency_writes. eexists. split; [done|].
    cbn [jhipsterConfig target perform_writes with_config]. split.
    + intros Hafter. rewrite Hd, fmap_app, fmap_cons.
      apply apply_writes_last. by apply Forall_fmap.
    + intros k Hk. apply apply_writes_untouched. by apply Forall_fmap.
  - repeat split; try done.
    + intros d v Hv. unfold dependency_value. by rewrite Hv.
    + intros d Hv. unfold dependency_value. by rewrite Hv.
Qed.

Lemma applyTo_dependency_writes_witness :
  composed always_completes (enabled_modules injector_full) empty_generator
  = Some empty_generator
  /\ slot_usable (apply_writes (property_writes injector_full)
                               (jhipsterConfig empty_generator)) = true
  /\ filter is_dependency_write
       (events (run (applyTo always_completes injector_full)
                    empty_generator).2)
     = [DependencyWrite "com.example:lib" (JString "1.0.0");
        DependencyWrite "com.example:lib" (JString "2.0.0")]
  /\ exists deps,
       dependency_map
         (jhipsterConfig
            (target (run (applyTo always_completes injector_full)
                         empty_generator).2))
       = Some deps
       /\ obj_get "com.example:lib" deps = Some (JString "2.0.0").
Proof.
  split; [reflexivity|]. split; [reflexivity|].
  pose proof (applyTo_dependency_writes always_completes injector_full
                empty_generator empty_generator eq_refl eq_refl)
    as (_ & Hev & Hlast & _).
  split; [exact Hev|].
  destruct (Hlast [lib_dependency (Some "1.0.0")]
                  (lib_dependency (Some "2.0.0")) [] eq_refl)
    as (deps & Hdeps & Hget & _).
  exists deps. split; [exact Hdeps|]. apply Hget. constructor.
Defined.

(** With a string in the slot, the assignment of the entry throws: no
    dependency is written and there is no dependency map. *)
Lemma dependency_not_written_on_primitive_slot :
  run (applyTo always_completes injector_slot_clash) empty_generator
  = (Throw (TypeError "Cannot create property"),
     {| target := with_config empty_generator
                    [("springBootDependencies", JString "managed")];
        events := [ConfigWrite "springBootDependencies" (JString "managed")] |})
  /\ filter is_dependency_write
       (events (run (applyTo always_completes injector_slot_clash)
                    empty_generator).2)
     <> dependency_event <$> dependencies injector_slot_clash
  /\ dependency_map
       (jhipsterConfig
          (target (run (applyTo always_completes injector_slot_clash)
                       empty_generator).2))
     = None.
Proof. split; [reflexivity|]. split; [vm_compute; discriminate|reflexivity]. Qed.

(** ** Fields that are not applied *)

Lemma for_of_Forall2 {G A} (body : A -> Eff G unit) xs ys :
  Forall2 (fun x y => forall w, body x w = body y w) xs ys ->
  forall w, for_of body xs w = for_of body ys w.
Proof.
  induction 1 as [|x y xs ys Hxy _ IH]; intros w; [done|].
  rewrite !for_of_cons. unfold mbind, eff_bind. rewrite Hxy.
  destruct (body y w) as [[[]|e] w1]; [apply IH|done].
Qed.

Lemma applyPropertyOverride_same {G} o1 o2 (w : World G) :
  same_override_effect o1 o2 ->
  applyPropertyOverride o1 w = applyPropertyOverride o2 w.
Proof.
  intros (Hp & Hv & Hps). unfold applyPropertyOverride.
  by rewrite Hp, Hv, Hps.
Qed.

Lemma addDependencyToGenerator_same {G} d1 d2 (w : World G) :
  same_dependency_effect d1 d2 ->
  addDependencyToGenerator d1 w = addDependencyToGenerator d2 w.
Proof.
  intros (Hg & Ha & Hv). unfold addDependencyToGenerator.
  by rewrite Hg, Ha, Hv.
Qed.

(** C9: two builders with the same module requests whose property overrides
    agree, one by one, on path, value and profile map, and whose
    dependencies agree on group, artifact and version, are applied alike:
    same completion, same generator, same calls and assignments.  The
    declared type, the override flag, the scope, the optional flag and the
    exclusions have no part in it. *)
Theorem applyTo_ignores_unapplied_fields {G}
    (compose : string -> option JsObject -> Generator G
               -> Completion unit * Generator G)
    (this1 this2 : SpringBootModuleInjector) (g : Generator G) :
  modules this1 = modules this2 ->
  Forall2 same_override_effect
          (propertyOverrides this1) (propertyOverrides this2) ->
  Forall2 same_dependency_effect (dependencies this1) (dependencies this2) ->
  run (applyTo compose this1) g = run (applyTo compose this2) g.
Proof.
  intros Hm Hp Hd. unfold run. rewrite !applyTo_loops.
  unfold sorted_modules. rewrite Hm. unfold mbind, eff_bind.
  destruct (for_of (compose_step compose) _ _) as [[[]|e] w1]; [|done].
  rewrite (for_of_Forall2 applyPropertyOverride _ (propertyOverrides this2)).
  - destruct (for_of applyPropertyOverride _ w1) as [[[]|e] w2]; [|done].
    apply for_of_Forall2.
    eapply Forall2_impl; [exact Hd|].
    intros d1 d2 Hsame w. by apply addDependencyToGenerator_same.
  - eapply Forall2_impl; [exact Hp|].
    intros o1 o2 Hsame w. by apply applyPropertyOverride_same.
Qed.

Lemma applyTo_ignores_unapplied_fields_witness :
  modules injector_full = modules injector_full_annotated
  /\ propertyOverrides injector_full <> propertyOverrides injector_full_annotated
  /\ dependencies injector_full <> dependencies injector_full_annotated
  /\ run (applyTo always_completes injector_full) empty_generator
     = run (applyTo always_completes injector_full_annotated) empty_generator.
Proof.
  split; [reflexivity|].
  split; [vm_compute; discriminate|].
  split; [vm_compute; discriminate|].
  apply (applyTo_ignores_unapplied_fields always_completes
           injector_full injector_full_annotated empty_generator).
  - reflexivity.
  - repeat constructor.
  - repeat constructor.
Defined.

(** ** The value a path ends with *)

Lemma append_ne (p s : string) : s <> "" -> p +:+ s <> p.
Proof.
  intros Hs. induction p as [|a p IH]; simpl; [done|].
  intros Heq. injection Heq as Heq. by apply IH.
Qed.

(** The key of a profile-specific value is never the path itself. *)
Lemma profile_key_ne p profile : profile_key p profile <> p.
Proof. unfold profile_key. by apply append_ne. Qed.

Lemma applyTo_normal_inv {G}
    (compose : string -> option JsObject -> Generator G
               -> Completion unit * Generator G)
    this (w w' : World G) :
  applyTo compose this w = (Normal tt, w') ->
  exists w1,
    for_of (compose_step compose) (sorted_modules this) w = (Normal tt, w1)
    /\ writes_outcome this w1 = (Normal tt, w').
Proof.
  intros Hrun.
  destruct (for_of (compose_step compose) (sorted_modules this) w)
    as [[[]|e] w1] eqn:Hloop.
  - exists w1. split; [done|].
    by rewrite <- (applyTo_modules_complete compose this w w1 Hloop).
  - rewrite (applyTo_modules_throw compose this w e w1 Hloop) in Hrun. done.
Qed.

(** The dependencies leave every key but their slot as the property
    overrides left it. *)
Lemma writes_outcome_config {G} this (w1 w' : World G) k :
  writes_outcome this w1 = (Normal tt, w') ->
  k <> "springBootDependencies" \/ dependencies this = [] ->
  obj_get k (jhipsterConfig (target w'))
  = obj_get k (apply_writes (property_writes this) (jhipsterConfig (target w1))).
Proof.
  unfold writes_outcome. intros Hout Hk.
  destruct (dependencies this) as [|d deps].
  - by injection Hout as <-.
  - destruct Hk as [Hk|Hk]; [|done].
    destruct (slot_usable _); [|done].
    injection Hout as <-. unfold perform_dependency_writes. simpl.
    by rewrite obj_get_set_ne.
Qed.

(** C10, amended: the property overrides are applied in the order of their
    registration, and when [applyTo] completes the configuration holds
    under a key the value of the last assignment to it (other than under
    [springBootDependencies] when dependencies are registered).  So the
    path of an override holds the value of that override when no override
    registered later is on the same path or has a profile key
    [path'@profile] equal to it: of two overrides on one path, the later
    one wins unless a later profile key is that very path. *)
Theorem applyTo_last_write_wins {G}
    (compose : string -> option JsObject -> Generator G
               -> Completion unit * Generator G)
    (this : SpringBootModuleInjector) (g : Generator G) (w' : World G) :
  run (applyTo compose this) g = (Normal tt, w') ->
  (exists rest,
     events w'
     = (call_event <$> enabled_modules this)
       ++ (write_event <$> flat_map override_writes (propertyOverrides this))
       ++ rest)
  /\ (forall k v ws1 ws2,
        property_writes this = ws1 ++ (k, v) :: ws2 ->
        Forall (fun kv => kv.1 <> k) ws2 ->
        k <> "springBootDependencies" \/ dependencies this = [] ->
        obj_get k (jhipsterConfig (target w')) = Some v)
  /\ (forall before o after,
        propertyOverrides this = before ++ o :: after ->
        Forall (fun o' => property o' <> property o
                          /\ forall profile profileValue ps,
                               profiles o' = Some ps ->
                               (profile, profileValue) ∈ ps ->
                               profile_key (property o') profile <> property o)
               after ->
        property o <> "springBootDependencies" \/ dependencies this = [] ->
        obj_get (property o) (jhipsterConfig (target w')) = Some (value o)).
Proof.
  intros Hrun. unfold run in Hrun.
  destruct (applyTo_normal_inv compose this _ _ Hrun) as (w1 & Hloop & Hout).
  assert (Hlast : forall k v ws1 ws2,
             property_writes this = ws1 ++ (k, v) :: ws2 ->
             Forall (fun kv => kv.1 <> k) ws2 ->
             k <> "springBootDependencies" \/ dependencies this = [] ->
             obj_get k (jhipsterConfig (target w')) = Some v).
  { intros k v ws1 ws2 Hws Hws2 Hk.
    rewrite (writes_outcome_config this w1 w' k Hout Hk), Hws.
    by apply apply_writes_last. }
  split; [|split; [exact Hlast|]].
  - destruct (module_loop_calls compose (sorted_modules this)
                {| target := g; events := [] |})
      as (called & _ & He & Hn).
    rewrite Hloop in He, Hn. simpl in He, Hn. subst called.
    unfold writes_outcome in Hout.
    destruct (dependencies this) as [|d deps].
    + injection Hout as <-. exists []. unfold perform_writes.
      cbn [events]. by rewrite He, app_nil_r.
    + destruct (slot_usable _); [|done]. injection Hout as <-.
      eexists. unfold perform_dependency_writes, perform_writes.
      cbn [events]. rewrite He, <- !app_assoc. reflexivity.
  - intros before o after Hovs Hafter Hk.
    apply (Hlast (property o) (value o)
             (flat_map override_writes before)
             (tl (override_writes o) ++ flat_map override_writes after));
      [|apply Forall_app; split|done].
    + unfold property_writes. rewrite Hovs, flat_map_app. done.
    + unfold override_writes. simpl.
      destruct (profiles o) as [ps|]; [|done].
      apply Forall_fmap, Forall_true. intros kv. apply profile_key_ne.
    + apply Forall_flat_map. eapply Forall_impl; [exact Hafter|].
      intros o' [Hp Hprof]. unfold override_writes.
      constructor; [done|].
      destruct (profiles o') as [ps|] eqn:Hps; [|done].
      apply Forall_fmap, Forall_forall. intros [profile profileValue] Hin.
      simpl. eapply Hprof; [done|].
      by rewrite <- (Object_entries_perm ps).
Qed.

Lemma applyTo_last_write_wins_witness :
  run (applyTo always_completes injector_two_ports) empty_generator
  = (Normal tt,
     {| target :=
          with_config empty_generator
            [("server.port", JNumber 9090);
             ("springBootDependencies",
              JObject [("com.example:lib", JString "BOM")])];
        events :=
          [ConfigWrite "server.port" (JNumber 8080);
           ConfigWrite "server.port" (JNumber 9090);
           ConfigWrite "springBootDependencies" (JObject []);
           DependencyWrite "com.example:lib" (JString "BOM")] |})
  /\ obj_get "server.port"
       (jhipsterConfig
          (target (run (applyTo always_completes injector_two_ports)
                       empty_generator).2))
     = Some (JNumber 9090).
Proof.
  split; [reflexivity|].
  apply (proj2 (proj2 (applyTo_last_write_wins always_completes
                         injector_two_ports empty_generator _ eq_refl))
           [property_override "server.port" (JNumber 8080)
                              default_property_options]
           (property_override "server.port" (JNumber 9090)
                              default_property_options)
           []).
  - reflexivity.
  - constructor.
  - left. discriminate.
Defined.

(** [logging@dev] is overridden twice, the later value being "WARN"; the
    profile dev of the override of [logging], registered afterwards, is
    written under the same key and the configuration ends with "DEBUG". *)
Lemma later_override_lost_to_profile_key :
  (property <$> propertyOverrides injector_profile_clash,
   value <$> propertyOverrides injector_profile_clash)
  = (["logging@dev"; "logging@dev"; "logging"],
     [JString "ERROR"; JString "WARN"; JString "INFO"])
  /\ (run (applyTo always_completes injector_profile_clash) empty_generator).1
     = Normal tt
  /\ obj_get "logging@dev"
       (jhipsterConfig
          (target (run (applyTo always_completes injector_profile_clash)
                       empty_generator).2))
     = Some (JString "DEBUG")
  /\ obj_get "logging@dev"
       (jhipsterConfig
          (target (run (applyTo always_completes injector_profile_clash)
                       empty_generator).2))
     <> Some (JString "WARN").
Proof. repeat split; try reflexivity. vm_compute. discriminate. Qed.

(** * Further properties *)

(** ** Registrations of the three kinds *)

Lemma apply_calls_sequences cs this :
  modules (apply_calls cs this) = modules this ++ registered_modules cs
  /\ propertyOverrides (apply_calls cs this)
     = propertyOverrides this ++ registered_overrides cs
  /\ dependencies (apply_calls cs this)
     = dependencies this ++ registered_dependencies cs.
Proof.
  revert this. induction cs as [|c cs IH]; intros this.
  - simpl. by rewrite !app_nil_r.
  - unfold apply_calls in *. simpl.
    destruct (IH (apply_call this c)) as (-> & -> & ->).
    destruct c; simpl; rewrite <- ?app_assoc; done.
Qed.

Lemma injector_eq (a b : SpringBootModuleInjector) :
  modules a = modules b -> propertyOverrides a = propertyOverrides b ->
  dependencies a = dependencies b -> a = b.
Proof. destruct a, b. simpl. by intros -> -> ->. Qed.

(** X1: the builder only grows: after any sequence of calls each of its
    three sequences is what it was, followed by the entries the calls of
    its kind built, in the order of the calls: [{module, ...config}] for
    [injectModule] and [{property, value, ...options}] for
    [overrideProperty], where a key the argument carries replaces the
    positional one, and the dependency itself for [addDependency]
    (duplicates included); so two sequences of calls that build the same
    modules, the same overrides and the same dependencies, however
    interleaved, leave the same builder. *)
Theorem builder_sequences_append_only
    (this : SpringBootModuleInjector) (cs cs' : list BuilderCall) :
  (getModules (apply_calls cs this) = getModules this ++ registered_modules cs
   /\ getPropertyOverrides (apply_calls cs this)
      = getPropertyOverrides this ++ registered_overrides cs
   /\ getDependencies (apply_calls cs this)
      = getDependencies this ++ registered_dependencies cs)
  /\ (registered_modules cs = registered_modules cs' ->
      registered_overrides cs = registered_overrides cs' ->
      registered_dependencies cs = registered_dependencies cs' ->
      apply_calls cs this = apply_calls cs' this).
Proof.
  split; [apply apply_calls_sequences|].
  intros Hm Ho Hd.
  destruct (apply_calls_sequences cs this) as (Hm1 & Ho1 & Hd1).
  destruct (apply_calls_sequences cs' this) as (Hm2 & Ho2 & Hd2).
  apply injector_eq; congruence.
Qed.

Lemma builder_sequences_append_only_witness :
  apply_calls [CallAddDependency (lib_dependency None);
               CallInjectModule "A" None;
               CallGetModules;
               CallAddDependency (lib_dependency None);
               CallOverrideProperty "server.port" (JNumber 8080) None]
              createSpringBootInjector
  = apply_calls [CallInjectModule "A" None;
                 CallOverrideProperty "server.port" (JNumber 8080) None;
                 CallAddDependency (lib_dependency None);
                 CallAddDependency (lib_dependency None)]
                createSpringBootInjector.
Proof.
  apply (proj2 (builder_sequences_append_only createSpringBootInjector _ _));
    reflexivity.
Defined.

(** ** Instances *)

Section Instances.
Import Obj.
Implicit Types (h : Heap) (this other : Injector).

(** X2: a new instance shares nothing with an instance that exists: its
    three arrays are new and empty, the other instance is as it was, and
    from then on the calls made on either one leave the other as it is. *)
Theorem new_instance_is_independent other h (cs : list BuilderCall) :
  wf other h ->
  wf (new h).1 (new h).2
  /\ wf other (new h).2
  /\ state (new h).1 (new h).2 = ([], [], [])
  /\ state other (new h).2 = state other h
  /\ state other (run_calls (new h).1 cs (new h).2) = state other h
  /\ state (new h).1 (run_calls other cs (new h).2) = ([], [], [])
  /\ view (new h).1 (run_calls (new h).1 cs (new h).2)
     = apply_calls cs createSpringBootInjector.
Proof.
  intros Hwf. pose proof Hwf as (Hm & Hp & Hd & _).
  destruct (new_wf h) as [Hnew Hst].
  destruct (new_fresh h) as (Fm & Fp & Fd & Hobj & Hold).
  assert (Hk : keeps_objects h (new h).2).
  { intros r x Hr. by rewrite Hobj. }
  destruct (state_eq other h (new h).2 Hwf) as [Hwf' Hst'];
    try done; try (by apply Hold).
  assert (Hne : forall l, is_Some (arrays h !! l) ->
                  l <> modules (new h).1 /\ l <> propertyOverrides (new h).1
                  /\ l <> dependencies (new h).1).
  { intros l [xs Hl]. repeat split; intros ->; congruence. }
  split; [done|]. split; [done|]. split; [done|]. split; [done|].
  split; [|split].
  - destruct (run_calls_spec (new h).1 cs (new h).2 Hnew)
      as (_ & _ & Hk' & Hframe).
    rewrite <- Hst'. pose proof Hwf' as (Hm' & Hp' & Hd' & _).
    apply state_eq; try done; apply Hframe; try done; by apply Hne.
  - destruct (run_calls_spec other cs (new h).2 Hwf')
      as (_ & _ & Hk' & Hframe).
    rewrite <- Hst. pose proof Hnew as (Hm' & Hp' & Hd' & _).
    apply state_eq; try done; apply Hframe; try done.
    all: intros Heq; rewrite Heq in *;
      first [by destruct Hm; congruence
            |by destruct Hp; congruence
            |by destruct Hd; congruence].
  - rewrite view_run_calls by done. unfold view. by rewrite Hst.
Qed.

End Instances.

Lemma new_instance_is_independent_witness :
  Obj.wf sample_instance sample_heap
  /\ Obj.state sample_instance
       (Obj.run_calls (Obj.new sample_heap).1
          [CallInjectModule "B" None; CallAddDependency (lib_dependency None)]
          (Obj.new sample_heap).2)
     = Obj.state sample_instance sample_heap.
Proof.
  assert (Hwf : Obj.wf sample_instance sample_heap).
  { vm_compute. repeat split; eauto; try discriminate.
    all: repeat constructor; eauto. }
  split; [exact Hwf|].
  pose proof (new_instance_is_independent sample_instance sample_heap
                [CallInjectModule "B" None;
                 CallAddDependency (lib_dependency None)] Hwf)
    as (_ & _ & _ & _ & H & _).
  exact H.
Defined.

(** ** The functions of [SpringBoot] *)

Lemma applyTo_single_module {G}
    (compose : string -> option JsObject -> Generator G
               -> Completion unit * Generator G)
    (g : Generator G) (m : SpringBootModuleConfig) :
  run (applyTo compose
         {| modules := [m]; propertyOverrides := []; dependencies := [] |}) g
  = if enabled m
    then match compose (module m) (config m) g with
         | (Normal _, g') =>
             (Normal tt,
              {| target := g';
                 events := [ComposeCall (module m) (config m)] |})
         | (Throw e, g') =>
             (Throw e,
              {| target := g';
                 events := [ComposeCall (module m) (config m)] |})
         end
    else (Normal tt, {| target := g; events := [] |}).
Proof.
  unfold run, applyTo. simpl.
  unfold mbind, eff_bind, await_composeWithJHipster. simpl.
  destruct (enabled m); simpl; [|done].
  by destruct (compose (module m) (config m) g) as [[[]|e] g'].
Qed.

(** X3: each of the nine functions of [SpringBoot] that register a module
    returns a builder with one request and nothing else: the request
    [{module, ...config}] for the function's identifier and the
    configuration given ([{enabled: true}] by default), so with that
    identifier unless the configuration carries a [module] key of its own.
    Applied, it makes the single call for the request when the request is
    enabled, with the outcome of that call, and nothing at all when it is
    not; no two of the functions have the same identifier. *)
Theorem module_helpers_register_one_module {G}
    (compose : string -> option JsObject -> Generator G
               -> Completion unit * Generator G)
    (g : Generator G)
    (helper : option ModuleOptions -> SpringBootModuleInjector)
    (id : string) (cfg : option ModuleOptions) :
  (helper, id) ∈ module_helpers ->
  getModules (helper cfg)
  = [module_request id (default default_module_options cfg)]
  /\ (cfg ≫= opt_module = None ->
      getModules (helper cfg) = [registered_request id cfg])
  /\ getPropertyOverrides (helper cfg) = []
  /\ getDependencies (helper cfg) = []
  /\ run (applyTo compose (helper cfg)) g
     = (let m := module_request id (default default_module_options cfg) in
        if enabled m
        then match compose (module m) (config m) g with
             | (Normal _, g') =>
                 (Normal tt,
                  {| target := g';
                     events :=
                       [ComposeCall (module m) (config m)] |})
             | (Throw e, g') =>
                 (Throw e,
                  {| target := g';
                     events :=
                       [ComposeCall (module m) (config m)] |})
             end
        else (Normal tt, {| target := g; events := [] |}))
  /\ NoDup (module_helpers.*2)
  /\ getModules SpringBoot.injector = [].
Proof.
  intros Hin.
  assert (Hh : helper cfg = injectModule id cfg createSpringBootInjector).
  { unfold module_helpers in Hin.
    repeat (apply elem_of_cons in Hin as [Hin|Hin];
            [by injection Hin as -> ->|]).
    by apply elem_of_nil in Hin. }
  rewrite Hh.
  split; [done|].
  split; [intros Hc; unfold getModules; simpl;
          by rewrite module_request_registered|].
  split; [done|]. split; [done|].
  split; [apply applyTo_single_module|].
  split; [|done].
  apply (bool_decide_unpack (NoDup (module_helpers.*2))). by vm_compute.
Qed.

Lemma module_helpers_register_one_module_witness :
  (SpringBoot.mongodb, SPRING_DATA_MODULES.MONGODB) ∈ module_helpers
  /\ getModules (SpringBoot.mongodb None)
     = [{| module := "jhipster:spring-data:mongodb"; enabled := true;
           config := None; priority := None |}]
  /\ run (applyTo (fails_on "jhipster:spring-data:mongodb")
                  (SpringBoot.mongodb None)) empty_generator
     = (Throw (ExternalFailure (JString "no such generator")),
        {| target := empty_generator;
           events := [ComposeCall "jhipster:spring-data:mongodb" None] |}).
Proof.
  assert (Hin : (SpringBoot.mongodb, SPRING_DATA_MODULES.MONGODB)
                ∈ module_helpers).
  { unfold module_helpers. do 6 apply list_elem_of_further.
    apply list_elem_of_here. }
  split; [exact Hin|].
  pose proof (module_helpers_register_one_module
                (fails_on "jhipster:spring-data:mongodb") empty_generator
                SpringBoot.mongodb SPRING_DATA_MODULES.MONGODB None Hin)
    as (Hm & _ & _ & _ & Hrun & _).
  split; [exact Hm|]. rewrite Hrun. reflexivity.
Defined.

(** ** The functions of [SpringProperties] *)

Lemma config_holds_last_write {G}
    (compose : string -> option JsObject -> Generator G
               -> Completion unit * Generator G)
    this (g : Generator G) w' k v ws1 ws2 :
  run (applyTo compose this) g = (Normal tt, w') ->
  property_writes this = ws1 ++ (k, v) :: ws2 ->
  Forall (fun kv => kv.1 <> k) ws2 ->
  k <> "springBootDependencies" \/ dependencies this = [] ->
  obj_get k (jhipsterConfig (target w')) = Some v.
Proof.
  intros Hrun Hws Hws2 Hk. unfold run in Hrun.
  destruct (applyTo_normal_inv compose this _ _ Hrun) as (w1 & _ & Hout).
  rewrite (writes_outcome_config this w1 w' k Hout Hk), Hws.
  by apply apply_writes_last.
Qed.

Lemma property_override_options_of o :
  property_override (property o) (value o) (options_of o) = o.
Proof. by destruct o. Qed.

Lemma register_overrides_sequences os this :
  modules (register_overrides os this) = modules this
  /\ propertyOverrides (register_overrides os this)
     = propertyOverrides this ++ os
  /\ dependencies (register_overrides os this) = dependencies this.
Proof.
  revert this. induction os as [|o os IH]; intros this.
  - simpl. by rewrite app_nil_r.
  - unfold register_overrides in *. simpl.
    destruct (IH (overrideProperty (property o) (value o)
                                   (Some (options_of o)) this))
      as (-> & -> & ->).
    simpl. by rewrite property_override_options_of, <- app_assoc.
Qed.

Lemma append_inj (p a b : string) : p +:+ a = p +:+ b -> a = b.
Proof.
  induction p as [|c p IH]; simpl; [done|].
  intros Heq. injection Heq as Heq. by apply IH.
Qed.

Lemma typed_override_shape o :
  typed_override o ->
  profiles o = None
  /\ override_writes o = [(property o, value o)]
  /\ property o <> "springBootDependencies".
Proof. by destruct 1. Qed.

(** X4: an override made by [serverPort], [databaseUrl], [loggingLevel] or
    [cacheType] stands for one assignment, of its value under its path,
    which is never the slot of the dependencies; registered by
    [overrideProperty(o.property, o.value, o)] it is listed as it was made.
    When [applyTo] completes, the configuration holds its value under its
    path unless an override registered later is on the same path (no
    override later having profiles).  The paths of [loggingLevel] differ
    for different loggers and from the three fixed paths. *)
Theorem typed_overrides_are_applied {G}
    (compose : string -> option JsObject -> Generator G
               -> Completion unit * Generator G)
    (this : SpringBootModuleInjector) (g : Generator G) (w' : World G)
    (before after : list SpringBootPropertyOverride)
    (o : SpringBootPropertyOverride) :
  typed_override o ->
  Forall (fun o' => profiles o' = None /\ property o' <> property o) after ->
  run (applyTo compose (register_overrides (before ++ o :: after) this)) g
  = (Normal tt, w') ->
  obj_get (property o) (jhipsterConfig (target w')) = Some (value o)
  /\ getPropertyOverrides (register_overrides (before ++ o :: after) this)
     = getPropertyOverrides this ++ before ++ o :: after
  /\ override_writes o = [(property o, value o)]
  /\ (forall a b la lb,
        property (SpringProperties.loggingLevel a la)
        = property (SpringProperties.loggingLevel b lb) -> a = b)
  /\ (forall a la,
        property (SpringProperties.loggingLevel a la)
        ∉ ["serverPort"; "spring.datasource.url"; "spring.cache.type"]).
Proof.
  intros Ho Hafter Hrun.
  destruct (typed_override_shape o Ho) as (Hps & Hws & Hslot).
  destruct (register_overrides_sequences (before ++ o :: after) this)
    as (_ & Hovs & _).
  split; [|split; [done|split; [done|split]]].
  - apply (config_holds_last_write compose _ g w' (property o) (value o)
             (flat_map override_writes (propertyOverrides this ++ before))
             (flat_map override_writes after) Hrun).
    + unfold property_writes. rewrite Hovs, app_assoc, flat_map_app.
      change (flat_map override_writes (o :: after))
        with (override_writes o ++ flat_map override_writes after).
      by rewrite Hws.
    + apply Forall_flat_map. eapply Forall_impl; [exact Hafter|].
      intros o' [Hp Hne]. unfold override_writes. rewrite Hp.
      by repeat constructor.
    + by left.
  - intros a b la lb Heq. simpl in Heq. by apply append_inj in Heq.
  - intros a la. simpl. rewrite !elem_of_cons, elem_of_nil.
    intros [H|[H|[H|[]]]]; discriminate.
Qed.

Lemma typed_overrides_are_applied_witness :
  run (applyTo always_completes
         (register_overrides
            ([SpringProperties.serverPort 8080]
             ++ SpringProperties.loggingLevel "com.example" "DEBUG"
             :: [SpringProperties.serverPort 9090;
                 SpringProperties.loggingLevel "org.example" "WARN"])
            (addDependency (lib_dependency None) createSpringBootInjector)))
      empty_generator
  = (Normal tt,
     {| target :=
          with_config empty_generator
            [("serverPort", JNumber 9090);
             ("logging.level.com.example", JString "DEBUG");
             ("logging.level.org.example", JString "WARN");
             ("springBootDependencies",
              JObject [("com.example:lib", JString "BOM")])];
        events :=
          [ConfigWrite "serverPort" (JNumber 8080);
           ConfigWrite "logging.level.com.example" (JString "DEBUG");
           ConfigWrite "serverPort" (JNumber 9090);
           ConfigWrite "logging.level.org.example" (JString "WARN");
           ConfigWrite "springBootDependencies" (JObject []);
           DependencyWrite "com.example:lib" (JString "BOM")] |})
  /\ obj_get "logging.level.com.example"
       (jhipsterConfig
          (target
             (run (applyTo always_completes
                     (register_overrides
                        ([SpringProperties.serverPort 8080]
                         ++ SpringProperties.loggingLevel "com.example" "DEBUG"
                         :: [SpringProperties.serverPort 9090;
                             SpringProperties.loggingLevel "org.example" "WARN"])
                        (addDependency (lib_dependency None)
                                       createSpringBootInjector)))
                  empty_generator).2))
     = Some (JString "DEBUG").
Proof.
  split; [reflexivity|].
  apply (typed_overrides_are_applied always_completes
           (addDependency (lib_dependency None) createSpringBootInjector)
           empty_generator _
           [SpringProperties.serverPort 8080]
           [SpringProperties.serverPort 9090;
            SpringProperties.loggingLevel "org.example" "WARN"]
           (SpringProperties.loggingLevel "com.example" "DEBUG")).
  - constructor.
  - repeat constructor; discriminate.
  - reflexivity.
Defined.

(** ** What the order of composition depends on *)

Lemma sort_filter_enabled (ms : list SpringBootModuleConfig) :
  Array_sort by_priority (filter (fun m => enabled m = true) ms)
  = filter (fun m => enabled m = true) (Array_sort by_priority ms).
Proof.
  symmetry.
  pose proof (enabled_modules_sorted_stable
                {| modules := ms; propertyOverrides := [];
                   dependencies := [] |}) as [Hs Hf].
  by apply (Array_sort_unique priority_or_0).
Qed.

Lemma for_of_filter_enabled {G}
    (compose : string -> option JsObject -> Generator G
               -> Completion unit * Generator G)
    (ms : list SpringBootModuleConfig) (w : World G) :
  for_of (compose_step compose) (filter (fun m => enabled m = true) ms) w
  = for_of (compose_step compose) ms w.
Proof.
  revert w. induction ms as [|m ms IH]; intros w; [done|].
  rewrite filter_cons, (for_of_cons _ m ms).
  destruct (enabled m) eqn:E.
  - rewrite decide_True by done. rewrite for_of_cons.
    unfold mbind, eff_bind.
    destruct (compose_step compose m w) as [[[]|e] w1]; [apply IH|done].
  - rewrite decide_False by congruence.
    rewrite compose_step_disabled by done.
    erewrite bind_normal by reflexivity. apply IH.
Qed.

(** X5: disabled requests are inert: a builder and the same builder
    without its disabled requests are applied alike, with the same calls in
    the same order, the same assignments and the same outcome. *)
Theorem disabled_requests_are_inert {G}
    (compose : string -> option JsObject -> Generator G
               -> Completion unit * Generator G)
    (this : SpringBootModuleInjector) (g : Generator G) :
  run (applyTo compose (without_disabled this)) g
  = run (applyTo compose this) g
  /\ sorted_modules (without_disabled this) = enabled_modules this.
Proof.
  assert (Hs : sorted_modules (without_disabled this) = enabled_modules this).
  { unfold sorted_modules, enabled_modules, without_disabled. simpl.
    apply sort_filter_enabled. }
  split; [|done]. unfold run. rewrite !applyTo_loops, Hs.
  unfold enabled_modules, mbind, eff_bind.
  by rewrite for_of_filter_enabled.
Qed.

Lemma sort_insert_fmap {A} (key key' : A -> Z) (f : A -> A) x l :
  (forall a b, key' (f a) - key' (f b) <= 0 <-> key a - key b <= 0) ->
  sort_insert (by_key key') (f x) (f <$> l)
  = f <$> sort_insert (by_key key) x l.
Proof.
  intros Hf. induction l as [|y l IH]; [done|].
  simpl. unfold by_key at 1 3.
  destruct (key x - key y <=? 0) eqn:E.
  - apply Z.leb_le, Hf, Z.leb_le in E. by rewrite E.
  - apply Z.leb_gt in E.
    assert (E' : (key' (f x) - key' (f y) <=? 0) = false).
    { apply Z.leb_gt. destruct (Z.le_gt_cases (key' (f x) - key' (f y)) 0)
        as [Hle|Hgt]; [|lia]. apply Hf in Hle. lia. }
    rewrite E'. rewrite fmap_cons. f_equal. apply IH.
Qed.

Lemma Array_sort_fmap {A} (key key' : A -> Z) (f : A -> A) l :
  (forall a b, key' (f a) - key' (f b) <= 0 <-> key a - key b <= 0) ->
  Array_sort (by_key key') (f <$> l) = f <$> Array_sort (by_key key) l.
Proof.
  intros Hf. induction l as [|x l IH]; [done|].
  rewrite fmap_cons. cbn [Array_sort]. rewrite IH.
  by apply sort_insert_fmap.
Qed.

Lemma for_of_fmap_same {G A} (body : A -> Eff G unit) (f : A -> A) l w :
  (forall x, body (f x) = body x) ->
  for_of body (f <$> l) w = for_of body l w.
Proof.
  intros Hf. revert w. induction l as [|x l IH]; intros w; [done|].
  rewrite fmap_cons, !for_of_cons. unfold mbind, eff_bind. rewrite Hf.
  destruct (body x w) as [[[]|e] w1]; [apply IH|done].
Qed.

(** X6: priorities serve the order only: replacing every priority [p]
    (0 when missing) by [f p], for [f] that keeps the order of the
    integers, changes nothing of a run: same calls in the same order, same
    assignments, same outcome. *)
Theorem priorities_only_order {G}
    (compose : string -> option JsObject -> Generator G
               -> Completion unit * Generator G)
    (this : SpringBootModuleInjector) (g : Generator G) (f : Z -> Z) :
  (forall a b, a <= b <-> f a <= f b) ->
  run (applyTo compose (with_priorities f this)) g
  = run (applyTo compose this) g.
Proof.
  intros Hf. unfold run. rewrite !applyTo_loops.
  unfold sorted_modules, with_priorities. simpl.
  change by_priority with (by_key priority_or_0).
  rewrite (Array_sort_fmap priority_or_0 priority_or_0).
  - unfold mbind, eff_bind. by rewrite for_of_fmap_same.
  - intros a b.
    change (f (priority_or_0 a) - f (priority_or_0 b) <= 0
            <-> priority_or_0 a - priority_or_0 b <= 0).
    specialize (Hf (priority_or_0 a) (priority_or_0 b)). lia.
Qed.

Lemma priorities_only_order_witness :
  (forall a b : Z, a <= b <-> 10 * a + 3 <= 10 * b + 3)
  /\ modules (with_priorities (fun p => 10 * p + 3) injector_XZY)
     <> modules injector_XZY
  /\ run (applyTo (fails_on "Z")
                  (with_priorities (fun p => 10 * p + 3) injector_XZY))
         empty_generator
     = run (applyTo (fails_on "Z") injector_XZY) empty_generator.
Proof.
  split; [intros a b; lia|].
  split; [vm_compute; discriminate|].
  apply (priorities_only_order (fails_on "Z") injector_XZY empty_generator
           (fun p => 10 * p + 3)).
  intros a b. lia.
Defined.

(** ** When [applyTo] completes *)

Lemma module_loop_normal_inv {G}
    (compose : string -> option JsObject -> Generator G
               -> Completion unit * Generator G)
    ms (g : Generator G) evs w1 :
  for_of (compose_step compose) ms {| target := g; events := evs |}
  = (Normal tt, w1) ->
  composed compose (filter (fun m => enabled m = true) ms) g
  = Some (target w1).
Proof.
  revert g evs. induction ms as [|m ms IH]; intros g evs Hloop.
  - simpl in Hloop. by injection Hloop as <-.
  - rewrite for_of_cons in Hloop. rewrite filter_cons.
    destruct (enabled m) eqn:E.
    + rewrite decide_True by done. simpl.
      rewrite compose_step_enabled in Hloop by done.
      destruct (compose (module m) (config m) g) as [[[]|e] g1] eqn:Hc.
      * erewrite bind_normal in Hloop by (by apply await_completes).
        by eapply IH.
      * erewrite bind_throw in Hloop by (by apply await_fails). done.
    + rewrite decide_False by congruence.
      rewrite compose_step_disabled in Hloop by done.
      erewrite bind_normal in Hloop by reflexivity. by eapply IH.
Qed.

Lemma slot_unusable_inv c :
  slot_usable c = false ->
  exists v, obj_get "springBootDependencies" c = Some v
            /\ truthy v = true /\ forall props, v <> JObject props.
Proof.
  unfold slot_usable.
  destruct (obj_get "springBootDependencies" c) as [[| |b|n|s|props]|];
    simpl; try done; intros Hu; apply negb_false_iff in Hu;
    eexists; (split; [done|]); split; done.
Qed.

(** X7: [applyTo] completes normally exactly when the collaborator
    completes the composition of every enabled request, in sorted order,
    and either no dependency is registered or the slot
    [springBootDependencies] is, once the property overrides are applied,
    empty, falsy or an object. *)
Theorem applyTo_completes_iff {G}
    (compose : string -> option JsObject -> Generator G
               -> Completion unit * Generator G)
    (this : SpringBootModuleInjector) (g : Generator G) :
  (run (applyTo compose this) g).1 = Normal tt
  <-> exists g1,
        composed compose (enabled_modules this) g = Some g1
        /\ (dependencies this = []
            \/ slot_usable (apply_writes (property_writes this)
                                         (jhipsterConfig g1)) = true).
Proof.
  unfold run. split.
  - intros Hrun.
    destruct (applyTo compose this _) as [r w'] eqn:Happ. simpl in Hrun.
    subst r.
    destruct (applyTo_normal_inv compose this _ _ Happ) as (w1 & Hloop & Hout).
    exists (target w1). split; [by eapply module_loop_normal_inv|].
    unfold writes_outcome in Hout.
    destruct (dependencies this) as [|d deps]; [by left|right].
    unfold property_writes. simpl in Hout.
    by destruct (slot_usable _).
  - intros (g1 & Hc & Hdeps).
    erewrite applyTo_modules_complete
      by (apply module_loop_completes; exact Hc).
    unfold writes_outcome.
    destruct (dependencies this) as [|d deps]; [done|].
    destruct Hdeps as [?|Hu]; [done|].
    unfold property_writes in Hu. simpl. by rewrite Hu.
Qed.

Lemma applyTo_completes_iff_witness :
  (run (applyTo always_completes injector_full) empty_generator).1 = Normal tt
  /\ (run (applyTo always_completes injector_slot_clash) empty_generator).1
     <> Normal tt.
Proof.
  split.
  - apply (proj2 (applyTo_completes_iff always_completes injector_full
                    empty_generator)).
    exists empty_generator. split; [reflexivity|]. right. reflexivity.
  - intros H.
    apply (proj1 (applyTo_completes_iff always_completes injector_slot_clash
                    empty_generator)) in H.
    destruct H as (g1 & Hc & [Hd|Hu]); [discriminate|].
    injection Hc as <-. discriminate.
Defined.

(** X8: when the modules compose and a dependency is registered while the
    slot [springBootDependencies] holds, once the property overrides are
    applied, a truthy value that is not an object, [applyTo] throws a
    [TypeError] on the first dependency: the calls and all the assignments
    of the property overrides have been made and stay, and no dependency
    is written. *)
Theorem applyTo_throws_on_primitive_slot {G}
    (compose : string -> option JsObject -> Generator G
               -> Completion unit * Generator G)
    (this : SpringBootModuleInjector) (g g1 : Generator G) :
  composed compose (enabled_modules this) g = Some g1 ->
  dependencies this <> [] ->
  slot_usable (apply_writes (property_writes this) (jhipsterConfig g1)) = false ->
  run (applyTo compose this) g
  = (Throw (TypeError "Cannot create property"),
     {| target := with_config g1 (apply_writes (property_writes this)
                                               (jhipsterConfig g1));
        events := (call_event <$> enabled_modules this)
                  ++ (write_event <$> property_writes this) |})
  /\ exists v,
       obj_get "springBootDependencies"
               (apply_writes (property_writes this) (jhipsterConfig g1))
       = Some v
       /\ truthy v = true /\ forall props, v <> JObject props.
Proof.
  intros Hc Hd Hu. split; [|by apply slot_unusable_inv].
  unfold run.
  erewrite applyTo_modules_complete
    by (apply module_loop_completes; exact Hc).
  unfold writes_outcome.
  destruct (dependencies this) as [|d deps]; [done|].
  unfold property_writes in *. simpl. by rewrite Hu.
Qed.

Lemma applyTo_throws_on_primitive_slot_witness :
  composed always_completes (enabled_modules injector_slot_clash)
           empty_generator = Some empty_generator
  /\ dependencies injector_slot_clash <> []
  /\ slot_usable (apply_writes (property_writes injector_slot_clash)
                               (jhipsterConfig empty_generator)) = false
  /\ run (applyTo always_completes injector_slot_clash) empty_generator
     = (Throw (TypeError "Cannot create property"),
        {| target := with_config empty_generator
                       [("springBootDependencies", JString "managed")];
           events :=
             [ConfigWrite "springBootDependencies" (JString "managed")] |}).
Proof.
  split; [reflexivity|]. split; [discriminate|]. split; [reflexivity|].
  apply (applyTo_throws_on_primitive_slot always_completes injector_slot_clash
           empty_generator empty_generator).
  - reflexivity.
  - discriminate.
  - reflexivity.
Defined.

(** ** Applying again *)

Lemma obj_set_same k v o : obj_get k o = Some v -> obj_set k v o = o.
Proof.
  induction o as [|[k' v'] o IH]; simpl; [done|].
  destruct (String.eqb k k') eqn:E.
  - apply String.eqb_eq in E. subst k'. by intros [= ->].
  - intros H. by rewrite IH.
Qed.

Lemma obj_get_set_is_Some k k' v o :
  is_Some (obj_get k o) -> is_Some (obj_get k (obj_set k' v o)).
Proof.
  intros H. destruct (decide (k' = k)) as [->|Hne].
  - rewrite obj_get_set_eq. by eexists.
  - by rewrite obj_get_set_ne.
Qed.

(** Assignments to two keys commute when the first key exists. *)
Lemma obj_set_comm k k' v v' o :
  k <> k' -> is_Some (obj_get k o) ->
  obj_set k' v' (obj_set k v o) = obj_set k v (obj_set k' v' o).
Proof.
  intros Hne. induction o as [|[k2 v2] o IH]; simpl.
  - by intros [? ?].
  - destruct (String.eqb k k2) eqn:E; destruct (String.eqb k' k2) eqn:E';
      simpl; rewrite ?E, ?E'.
    + apply String.eqb_eq in E, E'. congruence.
    + intros _. assert (String.eqb k' k = false) as ->; [|done].
      apply String.eqb_neq. congruence.
    + intros _. assert (String.eqb k k' = false) as ->; [|done].
      by apply String.eqb_neq.
    + intros H. by rewrite IH.
Qed.

Lemma apply_writes_is_Some k ws o :
  is_Some (obj_get k o) -> is_Some (obj_get k (apply_writes ws o)).
Proof.
  revert o. induction ws as [|[k' v'] ws IH]; intros o H; [done|].
  simpl. apply IH. by apply obj_get_set_is_Some.
Qed.

(** An assignment that a later one overwrites does not count. *)
Lemma apply_writes_overwritten k v ws o :
  is_Some (obj_get k o) ->
  Exists (fun kv => kv.1 = k) ws ->
  apply_writes ws (obj_set k v o) = apply_writes ws o.
Proof.
  revert o. induction ws as [|[k1 v1] ws IH]; intros o Hk Hex.
  - by apply Exists_nil in Hex.
  - simpl. destruct (decide (k1 = k)) as [->|Hne].
    + by rewrite obj_set_set.
    + apply Exists_cons in Hex as [Hex|Hex]; [done|].
      rewrite obj_set_comm by done.
      apply IH; [by apply obj_get_set_is_Some|done].
Qed.

Lemma not_Exists_Forall_not {A} (P : A -> Prop) (l : list A) :
  ~ Exists P l -> Forall (fun y => ~ P y) l.
Proof.
  intros H. apply Forall_forall. intros x Hx HP. apply H.
  apply Exists_exists. eauto.
Qed.

Lemma last_occurrence {A} (P : A -> Prop) `{!forall x, Decision (P x)}
    (l : list A) :
  Exists P l ->
  exists l1 x l2, l = l1 ++ x :: l2 /\ P x /\ Forall (fun y => ~ P y) l2.
Proof.
  induction l as [|y l IH]; intros Hex.
  - by apply Exists_nil in Hex.
  - destruct (decide (Exists P l)) as [Hl|Hl].
    + destruct (IH Hl) as (l1 & x & l2 & -> & Hx & Hl2).
      by exists (y :: l1), x, l2.
    + apply Exists_cons in Hex as [Hy|?]; [|done].
      exists [], y, l. split; [done|]. split; [done|].
      by apply not_Exists_Forall_not.
Qed.

Lemma settled_tail kv ws o : settled (kv :: ws) o -> settled ws o.
Proof.
  intros H ws1 k v ws2 Hws Hws2.
  apply (H (kv :: ws1) k v ws2); [by rewrite Hws|done].
Qed.

(** Assignments whose values are already there change nothing. *)
Lemma apply_writes_settled ws o : settled ws o -> apply_writes ws o = o.
Proof.
  revert o. induction ws as [|[k v] ws IH]; intros o Hs; [done|].
  simpl. pose proof (settled_tail _ _ _ Hs) as Hs'.
  destruct (decide (Exists (fun kv : string * JsValue => kv.1 = k) ws))
    as [Hex|Hnex].
  - destruct (last_occurrence _ _ Hex) as (l1 & [k' v'] & l2 & -> & Hk & Hl2).
    simpl in Hk. subst k'.
    assert (Hget : obj_get k o = Some v').
    { apply (Hs' l1 k v' l2); [done|].
      eapply Forall_impl; [exact Hl2|]. done. }
    rewrite apply_writes_overwritten; [by apply IH| |done].
    rewrite Hget. by eexists.
  - rewrite obj_set_same; [by apply IH|].
    apply (Hs [] k v ws); [done|].
    apply not_Exists_Forall_not in Hnex.
    eapply Forall_impl; [exact Hnex|]. done.
Qed.

Lemma apply_writes_makes_settled ws o : settled ws (apply_writes ws o).
Proof. intros ws1 k v ws2 -> Hws2. by apply apply_writes_last. Qed.

Lemma apply_writes_idempotent ws o :
  apply_writes ws (apply_writes ws o) = apply_writes ws o.
Proof. apply apply_writes_settled, apply_writes_makes_settled. Qed.

Lemma settled_obj_set ws o k v :
  Forall (fun kv => kv.1 <> k) ws -> settled ws o -> settled ws (obj_set k v o).
Proof.
  intros Hk Hs ws1 k' v' ws2 Hws Hws2.
  rewrite obj_get_set_ne; [by eapply Hs|].
  rewrite Hws in Hk. apply Forall_app in Hk as [_ Hk].
  apply Forall_cons in Hk as [Hk _]. simpl in Hk. congruence.
Qed.

Lemma writes_outcome_normal {G} this (w w' : World G) :
  writes_outcome this w = (Normal tt, w') ->
  jhipsterConfig (target w')
  = config_after_writes this (jhipsterConfig (target w))
  /\ (dependencies this = []
      \/ slot_usable (apply_writes (property_writes this)
                                   (jhipsterConfig (target w))) = true).
Proof.
  unfold writes_outcome, config_after_writes, property_writes.
  destruct (dependencies this) as [|d deps].
  - intros [= <-]. by split; [|left].
  - simpl. destruct (slot_usable _) eqn:Hu; [|done].
    intros [= <-]. by split; [|right].
Qed.

(** The configuration the two loops leave is one they leave as it is. *)
Lemma config_after_writes_idempotent this c :
  dependencies this = []
  \/ slot_usable (apply_writes (property_writes this) c) = true ->
  config_after_writes this (config_after_writes this c)
  = config_after_writes this c
  /\ (dependencies this = []
      \/ slot_usable (apply_writes (property_writes this)
                                   (config_after_writes this c)) = true).
Proof.
  intros Hok. unfold config_after_writes.
  set (ws := property_writes this).
  destruct (dependencies this) as [|d deps] eqn:Hd.
  { split; [apply apply_writes_idempotent|by left]. }
  destruct Hok as [?|Hu]; [done|].
  set (dws := dependency_write <$> d :: deps).
  set (c2 := apply_writes ws c).
  set (D1 := apply_writes dws (initial_dependency_map c2)).
  destruct (decide (Exists (fun kv : string * JsValue =>
                              kv.1 = "springBootDependencies") ws))
    as [Hex|Hnex].
  - assert (Hback : apply_writes ws
                      (obj_set "springBootDependencies" (JObject D1) c2) = c2).
    { rewrite apply_writes_overwritten; [apply apply_writes_idempotent| |done].
      destruct (last_occurrence _ _ Hex)
        as (l1 & [k' v'] & l2 & Hws & Hk & Hl2).
      simpl in Hk. subst k'. unfold c2. rewrite Hws.
      rewrite apply_writes_last; [by eexists|].
      eapply Forall_impl; [exact Hl2|]. done. }
    rewrite Hback. split; [done|by right].
  - assert (Hstay : apply_writes ws
                      (obj_set "springBootDependencies" (JObject D1) c2)
                    = obj_set "springBootDependencies" (JObject D1) c2).
    { apply apply_writes_settled, settled_obj_set.
      - apply not_Exists_Forall_not in Hnex.
        eapply Forall_impl; [exact Hnex|]. done.
      - apply apply_writes_makes_settled. }
    rewrite Hstay. split.
    + assert (HD1 : apply_writes dws D1 = D1)
        by apply apply_writes_idempotent.
      unfold initial_dependency_map, dependency_map.
      rewrite obj_get_set_eq. cbn [default id]. rewrite HD1.
      apply obj_set_same, obj_get_set_eq.
    + right. unfold slot_usable. by rewrite obj_get_set_eq.
Qed.

Lemma applyTo_dependency_events {G}
    (compose : string -> option JsObject -> Generator G
               -> Completion unit * Generator G)
    this (g g1 : Generator G) :
  composed compose (enabled_modules this) g = Some g1 ->
  dependencies this = []
  \/ slot_usable (apply_writes (property_writes this) (jhipsterConfig g1))
     = true ->
  filter is_dependency_write (events (run (applyTo compose this) g).2)
  = dependency_event <$> dependencies this.
Proof.
  intros Hc Hok.
  rewrite (applyTo_events_complete compose this g g1 Hc).
  unfold dependency_events.
  rewrite !filter_app, !filter_fmap_none by done. simpl.
  destruct (dependencies this) as [|d deps]; [done|].
  destruct Hok as [?|Hu]; [done|]. rewrite Hu.
  by rewrite filter_app, filter_slot_init, filter_fmap_all.
Qed.

(** X9: [applyTo] can be called again and replays everything: if a run
    completes and, started again on the generator it leaves, the
    collaborator completes the compositions without changing the
    configuration, then the second run completes too, makes the calls and
    writes the dependency entries once more, and leaves the configuration
    exactly as the first run left it. *)
Theorem applyTo_again_same_configuration {G}
    (compose : string -> option JsObject -> Generator G
               -> Completion unit * Generator G)
    (this : SpringBootModuleInjector) (g g1' : Generator G) (w1 : World G) :
  run (applyTo compose this) g = (Normal tt, w1) ->
  composed compose (enabled_modules this) (target w1) = Some g1' ->
  jhipsterConfig g1' = jhipsterConfig (target w1) ->
  exists w2,
    run (applyTo compose this) (target w1) = (Normal tt, w2)
    /\ jhipsterConfig (target w2) = jhipsterConfig (target w1)
    /\ filter is_compose_call (events w2) = call_event <$> enabled_modules this
    /\ filter is_dependency_write (events w2)
       = dependency_event <$> dependencies this.
Proof.
  intros Hrun Hc Hsame. unfold run in Hrun.
  destruct (applyTo_normal_inv compose this _ _ Hrun) as (w0 & _ & Hout).
  destruct (writes_outcome_normal this w0 w1 Hout) as [Hcfg Hok].
  destruct (config_after_writes_idempotent this _ Hok) as [Hidem Hok'].
  rewrite <- Hcfg in Hidem, Hok'.
  assert (Hrun2 : run (applyTo compose this) (target w1)
                  = writes_outcome this
                      {| target := g1';
                         events := [] ++ (call_event <$> enabled_modules this) |}).
  { unfold run. apply applyTo_modules_complete.
    by apply module_loop_completes. }
  destruct (writes_outcome this
              {| target := g1';
                 events := [] ++ (call_event <$> enabled_modules this) |})
    as [r w2] eqn:Hout2.
  assert (r = Normal tt) as ->.
  { unfold writes_outcome in Hout2.
    destruct (dependencies this) as [|d deps]; [by injection Hout2 as <-|].
    simpl in Hout2. rewrite Hsame in Hout2.
    destruct Hok' as [?|Hu]; [done|].
    unfold property_writes in Hu. rewrite Hu in Hout2.
    by injection Hout2 as <-. }
  exists w2. split; [done|].
  destruct (writes_outcome_normal this _ w2 Hout2) as [Hcfg2 _].
  simpl in Hcfg2. rewrite Hsame in Hcfg2.
  split; [by rewrite Hcfg2|].
  assert (Hw2 : w2 = (run (applyTo compose this) (target w1)).2)
    by (by rewrite Hrun2).
  split.
  - destruct (applyTo_compose_calls compose this (target w1))
      as (called & _ & He & Hn).
    rewrite Hrun2 in He, Hn. simpl in He, Hn. by subst called.
  - rewrite Hw2. apply (applyTo_dependency_events compose this _ g1' Hc).
    by rewrite Hsame.
Qed.

Lemma applyTo_again_same_configuration_witness :
  run (applyTo always_completes injector_full) empty_generator
  = (Normal tt,
     (run (applyTo always_completes injector_full) empty_generator).2)
  /\ exists w2,
       run (applyTo always_completes injector_full)
           (target (run (applyTo always_completes injector_full)
                        empty_generator).2)
       = (Normal tt, w2)
       /\ jhipsterConfig (target w2)
          = [("logging.level.root", JString "INFO");
             ("logging.level.root@dev", JString "DEBUG");
             ("logging.level.root@prod", JString "WARN");
             ("springBootDependencies",
              JObject [("com.example:lib", JString "2.0.0")])].
Proof.
  split; [reflexivity|].
  destruct (applyTo_again_same_configuration always_completes injector_full
              empty_generator
              (target (run (applyTo always_completes injector_full)
                           empty_generator).2)
              (run (applyTo always_completes injector_full) empty_generator).2
              eq_refl eq_refl eq_refl)
    as (w2 & Hrun & Hcfg & _).
  exists w2. split; [exact Hrun|]. rewrite Hcfg. reflexivity.
Defined.

(** ** What [applyTo] leaves alone *)

Lemma writes_outcome_config_cases {G} this (w1 : World G) :
  let c2 := apply_writes (property_writes this) (jhipsterConfig (target w1)) in
  jhipsterConfig (target (writes_outcome this w1).2) = c2
  \/ exists deps,
       jhipsterConfig (target (writes_outcome this w1).2)
       = obj_set "springBootDependencies" (JObject deps) c2.
Proof.
  unfold writes_outcome, property_writes.
  destruct (dependencies this) as [|d deps]; [by left|].
  simpl. destruct (slot_usable _); [right|by left].
  eexists. reflexivity.
Qed.

(** X10: [applyTo] itself touches only the paths of the property overrides,
    their profile keys and the slot [springBootDependencies]: when the
    modules compose, whatever the outcome afterwards, no key of the
    configuration is removed, and a key that no property override writes,
    other than the slot, holds what the compositions left there. *)
Theorem applyTo_leaves_other_keys {G}
    (compose : string -> option JsObject -> Generator G
               -> Completion unit * Generator G)
    (this : SpringBootModuleInjector) (g g1 : Generator G) (k : string) :
  composed compose (enabled_modules this) g = Some g1 ->
  (is_Some (obj_get k (jhipsterConfig g1)) ->
   is_Some (obj_get k (jhipsterConfig
                         (target (run (applyTo compose this) g).2))))
  /\ (Forall (fun kv => kv.1 <> k) (property_writes this) ->
      k <> "springBootDependencies" ->
      obj_get k (jhipsterConfig (target (run (applyTo compose this) g).2))
      = obj_get k (jhipsterConfig g1)).
Proof.
  intros Hc. unfold run.
  erewrite applyTo_modules_complete
    by (apply module_loop_completes; exact Hc).
  match goal with
  | |- context [writes_outcome this ?w] =>
      destruct (writes_outcome_config_cases this w) as [Hcfg|[deps Hcfg]]
  end; rewrite Hcfg; simpl.
  - split; [apply apply_writes_is_Some|].
    intros Hws _. by apply apply_writes_untouched.
  - split.
    + intros Hk. by apply obj_get_set_is_Some, apply_writes_is_Some.
    + intros Hws Hk. rewrite obj_get_set_ne by done.
      by apply apply_writes_untouched.
Qed.

Lemma applyTo_leaves_other_keys_witness :
  composed (fails_on "none") (enabled_modules injector_full) empty_generator
  = Some (with_config empty_generator [("composed", JNumber 3)])
  /\ obj_get "composed"
       (jhipsterConfig
          (target (run (applyTo (fails_on "none") injector_full)
                       empty_generator).2))
     = Some (JNumber 3).
Proof.
  split; [reflexivity|].
  rewrite (proj2 (applyTo_leaves_other_keys (fails_on "none") injector_full
                    empty_generator
                    (with_config empty_generator [("composed", JNumber 3)])
                    "composed" eq_refl)).
  - reflexivity.
  - repeat constructor; discriminate.
  - discriminate.
Defined.
